(** * InvoiceForge: the invoice model, normalizer, totals and share-link codec

    A shallow embedding of [src/app/components/InvoiceForge.tsx].

    - JavaScript numbers are IEEE-754 binary64 values: Rocq's primitive
      [float], whose [+], [*], [/] are the operations JavaScript performs.
    - JavaScript strings are sequences of UTF-16 code units: [list N].
    - A value that came out of [JSON.parse] is a [value]; an object keeps
      its properties in insertion order (the order [JSON.stringify] prints).
    - [uid()], [todayISO()] and [plusDaysISO()] read the clock and the
      random generator: they are read from an environment [Env], and the
      number of [uid()] calls made so far is threaded as state.
    - Exceptions ([TypeError], the [DOMException] of [atob]/[btoa]) are the
      [Throw] outcome of the monad [M]. *)

From Stdlib Require Import ZArith NArith List String Ascii Bool Lia Floats.
From Stdlib Require Uint63.
Import ListNotations.

Set Warnings "-inexact-float,-register-all".
Set Implicit Arguments.

(* ================================================================== *)
(** * JavaScript strings and values                                    *)
(* ================================================================== *)

(** A JavaScript string: its UTF-16 code units. *)
Definition jsstring := list N.

(** The code units of an ASCII literal of the source. *)
Definition js (s : string) : jsstring :=
  map N_of_ascii (list_ascii_of_string s).

Fixpoint jsstring_eqb (a b : jsstring) : bool :=
  match a, b with
  | [], [] => true
  | x :: a', y :: b' => N.eqb x y && jsstring_eqb a' b'
  | _, _ => false
  end.

(** Every code unit is a 16-bit quantity. *)
Definition is_jsstring (s : jsstring) : Prop := Forall (fun u => (u < 65536)%N) s.

Definition is_jsstringb (s : jsstring) : bool := forallb (fun u => (u <? 65536)%N) s.

Inductive value : Type :=
| Undefined
| Null
| Bool (b : bool)
| Num (n : float)
| Str (s : jsstring)
| Arr (elems : list value)
| Obj (props : list (jsstring * value)).

(** [typeof v === 'string'], [Array.isArray(v)]. *)
Definition is_string (v : value) : bool :=
  match v with Str _ => true | _ => false end.


Definition is_nullish (v : value) : bool :=
  match v with Undefined | Null => true | _ => false end.

(** [!v] is false: the truthy values. *)
Definition truthy (v : value) : bool :=
  match v with
  | Undefined | Null => false
  | Bool b => b
  | Num n => negb (is_nan n || is_zero n)
  | Str s => match s with [] => false | _ => true end
  | Arr _ | Obj _ => true
  end.

(** Own property lookup in an object's property list. *)
Fixpoint lookup (k : jsstring) (props : list (jsstring * value)) : option value :=
  match props with
  | [] => None
  | (k', v) :: rest => if jsstring_eqb k k' then Some v else lookup k rest
  end.

(* ================================================================== *)
(** * Effects: exceptions and the [uid()] call counter                 *)
(* ================================================================== *)

Inductive exn : Type := TypeError | InvalidCharacterError.

Inductive outcome (A : Type) : Type :=
| Return (a : A)
| Throw (e : exn).
Arguments Return {A} a.
Arguments Throw {A} e.

(** A computation: from the number of [uid()] calls made so far to an
    outcome and the number of calls made afterwards. *)
Definition M (A : Type) : Type := nat -> outcome A * nat.

Definition ret {A} (a : A) : M A := fun n => (Return a, n).

Definition throw {A} (e : exn) : M A := fun n => (Throw e, n).

Definition bind {A B} (c : M A) (k : A -> M B) : M B :=
  fun n =>
    match c n with
    | (Return a, n') => k a n'
    | (Throw e, n') => (Throw e, n')
    end.

(** [try { c } catch { h }]. *)
Definition try_catch {A} (c h : M A) : M A :=
  fun n =>
    match c n with
    | (Return a, n') => (Return a, n')
    | (Throw _, n') => h n'
    end.

Declare Scope js_scope.
Delimit Scope js_scope with M.
Notation "x <- c ;; k" := (bind c (fun x => k))
  (at level 61, c at next level, right associativity) : js_scope.
Local Open Scope js_scope.

Fixpoint mapM {A B} (f : A -> M B) (l : list A) : M (list B) :=
  match l with
  | [] => ret []
  | a :: l' => b <- f a ;; bs <- mapM f l' ;; ret (b :: bs)
  end.

(** The value of [v.k] when [v] is not [null] or [undefined]: the own
    property of an object, [undefined] when the object lacks it or when
    [v] is a primitive or an array (none of the names the program reads
    is defined on a built-in prototype). *)
Definition prop_of (v : value) (k : string) : value :=
  match v with
  | Obj props => match lookup (js k) props with Some x => x | None => Undefined end
  | _ => Undefined
  end.

(** [v.k]: reading a property of [null] or [undefined] throws. *)
Definition getprop (v : value) (k : string) : M value :=
  if is_nullish v then throw TypeError else ret (prop_of v k).

(** [v?.k]. *)
Definition getprop_opt (v : value) (k : string) : M value :=
  if is_nullish v then ret Undefined else getprop v k.

(** [a ?? b], with [b] evaluated only when [a] is nullish. *)
Definition coalesce (a : value) (b : M value) : M value :=
  if is_nullish a then b else ret a.

(* ================================================================== *)
(** * The environment: random generator and clock                      *)
(* ================================================================== *)

(** [uid_at n] is the string [Math.random().toString(16).slice(2) +
    Date.now().toString(16)] evaluates to at the [n]-th call of [uid()];
    [date_in k] is the local calendar date [k] days from now, as
    ([getFullYear()], [getMonth()], [getDate()]). *)
Record Env : Type := mkEnv {
  uid_at : nat -> jsstring;
  date_in : Z -> Z * Z * Z
}.

(** Decimal digits of a non-negative integer, as [String(n)] prints it. *)
Fixpoint digits_fuel (fuel : nat) (n : N) (acc : jsstring) : jsstring :=
  match fuel with
  | O => acc
  | S fuel' =>
      let acc' := (48 + n mod 10)%N :: acc in
      if (n <? 10)%N then acc' else digits_fuel fuel' (n / 10)%N acc'
  end.

Definition digits (n : N) : jsstring := digits_fuel (S (N.to_nat (N.log2 n))) n [].

(** [String(n)] for an integer [n]. *)
Definition String_of_Z (z : Z) : jsstring :=
  if (z <? 0)%Z then 45%N :: digits (Z.to_N (- z)) else digits (Z.to_N z).

(** [s.padStart(2, '0')]. *)
Definition padStart2 (s : jsstring) : jsstring :=
  match s with
  | [] => [48; 48]%N
  | [c] => [48%N; c]
  | _ => s
  end.

Section Program.

Variable E : Env.

Definition uid : M jsstring := fun n => (Return (uid_at E n), S n).

Definition format_date (d : Z * Z * Z) : jsstring :=
  let '(yyyy, month, day) := d in
  String_of_Z yyyy ++ js "-" ++ padStart2 (String_of_Z (month + 1))
    ++ js "-" ++ padStart2 (String_of_Z day).

Definition todayISO : M jsstring := ret (format_date (date_in E 0)).

Definition plusDaysISO (days : Z) : M jsstring := ret (format_date (date_in E days)).

(* ================================================================== *)
(** * The invoice model                                                *)
(* ================================================================== *)

Record LineItem : Type := mkLineItem {
  id : jsstring;
  description : jsstring;
  quantity : float;
  unitPrice : float
}.

(** The object [normalizeInvoice] builds.  The TypeScript declaration
    gives the first eight fields and [notes] the type [string]; at run
    time they hold whatever [input.f ?? default] evaluated to, so they
    are [value]s here. *)
Record Invoice : Type := mkInvoice {
  fromName : value;
  fromAddress : value;
  billToName : value;
  billToAddress : value;
  invoiceNumber : value;
  issueDate : value;
  dueDate : value;
  currency : value;
  taxRatePct : float;
  notes : value;
  items : list LineItem
}.

(** A line item and an invoice as the JavaScript objects they are. *)
Definition item_value (it : LineItem) : value :=
  Obj [ (js "id", Str (id it));
        (js "description", Str (description it));
        (js "quantity", Num (quantity it));
        (js "unitPrice", Num (unitPrice it)) ].

Definition invoice_value (inv : Invoice) : value :=
  Obj [ (js "fromName", fromName inv);
        (js "fromAddress", fromAddress inv);
        (js "billToName", billToName inv);
        (js "billToAddress", billToAddress inv);
        (js "invoiceNumber", invoiceNumber inv);
        (js "issueDate", issueDate inv);
        (js "dueDate", dueDate inv);
        (js "currency", currency inv);
        (js "taxRatePct", Num (taxRatePct inv));
        (js "notes", notes inv);
        (js "items", Arr (map item_value (items inv))) ].

(** [exampleInvoice]: a module-level constant, evaluated once when the
    module is loaded. *)
Definition exampleInvoice : M Invoice :=
  issue <- todayISO ;;
  due <- plusDaysISO 14 ;;
  id1 <- uid ;;
  id2 <- uid ;;
  ret {| fromName := Str (js "Acme Studio LLC");
         fromAddress := Str (js "1-2-3 Shibuya" ++ [10%N] ++ js "Tokyo, Japan");
         billToName := Str (js "Client Co.");
         billToAddress := Str (js "500 Market St" ++ [10%N] ++ js "San Francisco, CA");
         invoiceNumber := Str (js "INV-1007");
         issueDate := Str issue;
         dueDate := Str due;
         currency := Str (js "USD");
         taxRatePct := 10;
         notes := Str (js "Thank you for your business. Please include the invoice number on your payment reference.");
         items := [ {| id := id1; description := js "Landing page design (Figma)";
                       quantity := 1; unitPrice := 900 |};
                    {| id := id2; description := js "Implementation (Next.js)";
                       quantity := 10; unitPrice := 90 |} ] |}.

(* ================================================================== *)
(** * The normalizer                                                   *)
(* ================================================================== *)

(** The callback of [input.items.map(...)]. *)
Definition normalizeItem (it : value) : M LineItem :=
  vid <- getprop_opt it "id" ;;
  id' <- match vid with Str s => ret s | _ => uid end ;;
  vdesc <- getprop_opt it "description" ;;
  vqty <- getprop_opt it "quantity" ;;
  vprice <- getprop_opt it "unitPrice" ;;
  ret {| id := id';
         description := match vdesc with Str s => s | _ => [] end;
         quantity := match vqty with Num q => q | _ => 1%float end;
         unitPrice := match vprice with Num p => p | _ => 0%float end |}.

Definition defaultItem : M LineItem :=
  id' <- uid ;;
  ret {| id := id'; description := js "Service"; quantity := 1; unitPrice := 0 |}.

Definition normalizeInvoice (input : value) : M Invoice :=
  v1 <- getprop input "fromName" ;;       f1 <- coalesce v1 (ret (Str [])) ;;
  v2 <- getprop input "fromAddress" ;;    f2 <- coalesce v2 (ret (Str [])) ;;
  v3 <- getprop input "billToName" ;;     f3 <- coalesce v3 (ret (Str [])) ;;
  v4 <- getprop input "billToAddress" ;;  f4 <- coalesce v4 (ret (Str [])) ;;
  v5 <- getprop input "invoiceNumber" ;;  f5 <- coalesce v5 (ret (Str [])) ;;
  v6 <- getprop input "issueDate" ;;
  f6 <- coalesce v6 (d <- todayISO ;; ret (Str d)) ;;
  v7 <- getprop input "dueDate" ;;
  f7 <- coalesce v7 (d <- plusDaysISO 14 ;; ret (Str d)) ;;
  v8 <- getprop input "currency" ;;       f8 <- coalesce v8 (ret (Str (js "USD"))) ;;
  v9 <- getprop input "taxRatePct" ;;
  v10 <- getprop input "notes" ;;         f10 <- coalesce v10 (ret (Str [])) ;;
  v11 <- getprop input "items" ;;
  its <- match v11 with
         | Arr elems => mapM normalizeItem elems
         | _ => it <- defaultItem ;; ret [it]
         end ;;
  ret {| fromName := f1; fromAddress := f2; billToName := f3; billToAddress := f4;
         invoiceNumber := f5; issueDate := f6; dueDate := f7; currency := f8;
         taxRatePct := match v9 with Num t => t | _ => 0%float end;
         notes := f10; items := its |}.

(* ================================================================== *)
(** * Editing the invoice held by the component                        *)
(* ================================================================== *)

(** A [Partial<LineItem>]: the fields the patch object has. *)
Record ItemPatch : Type := mkPatch {
  patch_id : option jsstring;
  patch_description : option jsstring;
  patch_quantity : option float;
  patch_unitPrice : option float
}.

Definition or_else {A} (o : option A) (a : A) : A :=
  match o with Some x => x | None => a end.

(** [{ ...it, ...patch }]. *)
Definition spread_item (it : LineItem) (patch : ItemPatch) : LineItem :=
  {| id := or_else (patch_id patch) (id it);
     description := or_else (patch_description patch) (description it);
     quantity := or_else (patch_quantity patch) (quantity it);
     unitPrice := or_else (patch_unitPrice patch) (unitPrice it) |}.

(** [{ ...prev, items: its }]. *)
Definition with_items (prev : Invoice) (its : list LineItem) : Invoice :=
  {| fromName := fromName prev; fromAddress := fromAddress prev;
     billToName := billToName prev; billToAddress := billToAddress prev;
     invoiceNumber := invoiceNumber prev; issueDate := issueDate prev;
     dueDate := dueDate prev; currency := currency prev;
     taxRatePct := taxRatePct prev; notes := notes prev; items := its |}.

Definition updateItem (id0 : jsstring) (patch : ItemPatch) (prev : Invoice) : Invoice :=
  with_items prev
    (map (fun it => if jsstring_eqb (id it) id0 then spread_item it patch else it)
         (items prev)).

Definition addItem (prev : Invoice) : M Invoice :=
  id' <- uid ;;
  ret (with_items prev
         (items prev ++ [ {| id := id'; description := []; quantity := 1; unitPrice := 0 |} ])).

Definition removeItem (id0 : jsstring) (prev : Invoice) : Invoice :=
  with_items prev
    (if (List.length (items prev) <=? 1)%nat then items prev
     else filter (fun it => negb (jsstring_eqb (id it) id0)) (items prev)).

End Program.

(* ================================================================== *)
(** * Rounding and totals                                              *)
(* ================================================================== *)

Local Open Scope float_scope.

(** [Number.EPSILON], 2^-52. *)
Definition EPSILON : float := Eval cbv in Z.ldexp 1 (-52)%Z.

(** A small integer as a [float] (exact below 2^53 in magnitude). *)
Definition float_of_Z (z : Z) : float :=
  match z with
  | Z0 => 0
  | Zpos _ => of_uint63 (Uint63.of_Z z)
  | Zneg p => - of_uint63 (Uint63.of_Z (Zpos p))
  end.

(** [Math.round]: the integer closest to its argument, the larger one
    when two are equally close; NaN, the infinities and the zeros are
    returned unchanged, and a value in [-0.5, 0) gives [-0].
    A finite non-zero binary64 value is [(-1)^s * m * 2^e]. *)
Definition Math_round (y : float) : float :=
  match Prim2SF y with
  | S754_finite s m e =>
      if (0 <=? e)%Z then y
      else
        let z := if s then Zneg m else Zpos m in
        let n := ((2 * z + 2 ^ (- e)) / 2 ^ (- e + 1))%Z in
        if (n =? 0)%Z then (if s then (-0)%float else 0%float) else float_of_Z n
  | _ => y
  end.

Definition round2 (n : float) : float :=
  Math_round ((n + EPSILON) * 100) / 100.

(** [Number(x) || 0] for a number [x]: NaN and the zeros are falsy. *)
Definition or_zero (x : float) : float :=
  if is_nan x || is_zero x then 0 else x.

Record Totals : Type := mkTotals {
  subtotal : float;
  tax : float;
  total : float
}.

(** The [useMemo] body computing [totals]. *)
Definition totals (invoice : Invoice) : Totals :=
  let subtotal :=
    round2 (fold_left
              (fun acc it => acc + or_zero (quantity it) * or_zero (unitPrice it))
              (items invoice) 0) in
  let tax := round2 ((subtotal * or_zero (taxRatePct invoice)) / 100) in
  let total := round2 (subtotal + tax) in
  {| subtotal := subtotal; tax := tax; total := total |}.

(** The per-row [lineTotal] of the preview table. *)
Definition lineTotal (it : LineItem) : float :=
  round2 (or_zero (quantity it) * or_zero (unitPrice it)).

(** ** What the specification asks of [round2] and of the totals *)

(** The exact value of a finite [float] is [num / 2^sh] ([sh >= 0]) or
    [num * 2^(-sh)]; [cents_of] scales it by 100 and rounds to an integer
    with the given rule for a remainder of exactly one half. *)
Inductive tie_rule : Type := AwayFromZero | TowardPlusInfinity.

Definition round_ratio (rule : tie_rule) (num den : Z) : Z :=
  match rule with
  | TowardPlusInfinity => ((2 * num + den) / (2 * den))%Z
  | AwayFromZero =>
      if (num <? 0)%Z then (- ((2 * (- num) + den) / (2 * den)))%Z
      else ((2 * num + den) / (2 * den))%Z
  end.

Definition cents_of (rule : tie_rule) (x : float) : option Z :=
  match Prim2SF x with
  | S754_zero _ => Some 0%Z
  | S754_finite s m e =>
      let z := if s then Zneg m else Zpos m in
      Some (if (0 <=? e)%Z then (100 * z * 2 ^ e)%Z
            else round_ratio rule (100 * z) (2 ^ (- e)))
  | _ => None
  end.

(** [x] rounded to the nearest multiple of 0.01 under [rule]: the
    binary64 value of [k / 100] for the integer number of cents [k]
    (exact for magnitudes below 2^53 cents). *)
Definition nearest_hundredth (rule : tie_rule) (x : float) : float :=
  match cents_of rule x with
  | Some k => float_of_Z k / 100
  | None => x
  end.


(** [P] holds on the [2^depth] integers from [lo] on. *)
Fixpoint all_from (P : Z -> bool) (depth : nat) (lo : Z) : bool :=
  match depth with
  | O => P lo
  | S d => all_from P d lo && all_from P d (lo + 2 ^ Z.of_nat d)%Z
  end.

Local Close Scope float_scope.

(* ================================================================== *)
(** * Platform functions of the share-link codec                       *)
(* ================================================================== *)

Local Open Scope N_scope.

(** ** [String.prototype.replaceAll], [slice] *)

(** [s.replaceAll(p, r)] for a pattern [p] of one code unit. *)
Definition replaceAll (p : N) (r : jsstring) (s : jsstring) : jsstring :=
  flat_map (fun c => if c =? p then r else [c]) s.

(** [s.slice(k)] for [k >= 0]. *)
Definition slice (k : nat) (s : jsstring) : jsstring := skipn k s.

(** ** [TextEncoder.encode]: UTF-16 to UTF-8 *)

Definition is_high_surrogate (u : N) : bool := (55296 <=? u) && (u <=? 56319).
Definition is_low_surrogate (u : N) : bool := (56320 <=? u) && (u <=? 57343).

(** The scalar values of a string: a surrogate pair is one code point, a
    surrogate without its partner is replaced by U+FFFD. *)
Fixpoint scalar_values (s : jsstring) : list N :=
  match s with
  | [] => []
  | u :: rest =>
      if is_high_surrogate u then
        match rest with
        | l :: rest' =>
            if is_low_surrogate l
            then (65536 + (u - 55296) * 1024 + (l - 56320)) :: scalar_values rest'
            else 65533 :: scalar_values rest
        | [] => [65533]
        end
      else if is_low_surrogate u then 65533 :: scalar_values rest
      else u :: scalar_values rest
  end.

Definition utf8_bytes (cp : N) : list N :=
  if cp <? 128 then [cp]
  else if cp <? 2048 then [192 + cp / 64; 128 + cp mod 64]
  else if cp <? 65536 then [224 + cp / 4096; 128 + (cp / 64) mod 64; 128 + cp mod 64]
  else [240 + cp / 262144; 128 + (cp / 4096) mod 64; 128 + (cp / 64) mod 64; 128 + cp mod 64].

Definition TextEncoder_encode (input : jsstring) : list N :=
  flat_map utf8_bytes (scalar_values input).

(** ** [TextDecoder.decode]: UTF-8 to UTF-16, replacing what is malformed *)

Definition in_range (lo hi b : N) : bool := (lo <=? b) && (b <=? hi).

(** A continuation byte and its six bits. *)
Definition is_cont (b : N) : bool := in_range 128 191 b.

(** The UTF-8 decoder of the Encoding standard, not fatal: a byte that
    cannot start or continue a sequence ends the sequence read so far,
    which becomes one U+FFFD, and is then read again as a first byte. *)
Fixpoint utf8_decode (bs : list N) : list N :=
  match bs with
  | [] => []
  | b0 :: r0 =>
      if b0 <? 128 then b0 :: utf8_decode r0
      else if in_range 194 223 b0 then
        match r0 with
        | b1 :: r1 =>
            if is_cont b1 then ((b0 - 192) * 64 + (b1 - 128)) :: utf8_decode r1
            else 65533 :: utf8_decode r0
        | [] => [65533]
        end
      else if in_range 224 239 b0 then
        match r0 with
        | b1 :: r1 =>
            if in_range (if b0 =? 224 then 160 else 128) (if b0 =? 237 then 159 else 191) b1
            then
              match r1 with
              | b2 :: r2 =>
                  if is_cont b2
                  then ((b0 - 224) * 4096 + (b1 - 128) * 64 + (b2 - 128)) :: utf8_decode r2
                  else 65533 :: utf8_decode r1
              | [] => [65533]
              end
            else 65533 :: utf8_decode r0
        | [] => [65533]
        end
      else if in_range 240 244 b0 then
        match r0 with
        | b1 :: r1 =>
            if in_range (if b0 =? 240 then 144 else 128) (if b0 =? 244 then 143 else 191) b1
            then
              match r1 with
              | b2 :: r2 =>
                  if is_cont b2 then
                    match r2 with
                    | b3 :: r3 =>
                        if is_cont b3
                        then ((b0 - 240) * 262144 + (b1 - 128) * 4096
                              + (b2 - 128) * 64 + (b3 - 128)) :: utf8_decode r3
                        else 65533 :: utf8_decode r2
                    | [] => [65533]
                    end
                  else 65533 :: utf8_decode r1
              | [] => [65533]
              end
            else 65533 :: utf8_decode r0
        | [] => [65533]
        end
      else 65533 :: utf8_decode r0
  end.

(** The code units of a code point. *)
Definition utf16_units (cp : N) : jsstring :=
  if cp <? 65536 then [cp]
  else [55296 + (cp - 65536) / 1024; 56320 + (cp - 65536) mod 1024].

(** A byte order mark at the start is dropped ([ignoreBOM] is false). *)
Definition strip_bom (cps : list N) : list N :=
  match cps with
  | c :: rest => if c =? 65279 then rest else cps
  | [] => []
  end.

Definition TextDecoder_decode (bytes : list N) : jsstring :=
  flat_map utf16_units (strip_bom (utf8_decode bytes)).

(** ** [btoa] and [atob] *)

(** The character of a 6-bit group: A-Z, a-z, 0-9, [+], [/]. *)
Definition b64_char (i : N) : N :=
  if i <? 26 then 65 + i
  else if i <? 52 then 71 + i
  else if i <? 62 then i - 4
  else if i =? 62 then 43
  else 47.

Definition b64_index (c : N) : option N :=
  if in_range 65 90 c then Some (c - 65)
  else if in_range 97 122 c then Some (c - 71)
  else if in_range 48 57 c then Some (c + 4)
  else if c =? 43 then Some 62
  else if c =? 47 then Some 63
  else None.

Fixpoint b64_encode (bytes : list N) : jsstring :=
  match bytes with
  | [] => []
  | [a] => [b64_char (a / 4); b64_char ((a mod 4) * 16); 61; 61]
  | [a; b] => [b64_char (a / 4); b64_char ((a mod 4) * 16 + b / 16);
               b64_char ((b mod 16) * 4); 61]
  | a :: b :: c :: rest =>
      b64_char (a / 4) :: b64_char ((a mod 4) * 16 + b / 16)
        :: b64_char ((b mod 16) * 4 + c / 64) :: b64_char (c mod 64)
        :: b64_encode rest
  end.

(** [btoa(binary)]: throws when a code unit is above 255. *)
Definition btoa (binary : jsstring) : M jsstring :=
  if forallb (fun c => c <? 256) binary then ret (b64_encode binary)
  else throw InvalidCharacterError.

(** The bytes of a sequence of 6-bit groups; the bits left over at the
    end (of two or three groups) are dropped. *)
Fixpoint b64_decode (groups : list N) : list N :=
  match groups with
  | a :: b :: c :: d :: rest =>
      (a * 4 + b / 16) :: ((b mod 16) * 16 + c / 4) :: ((c mod 4) * 64 + d)
        :: b64_decode rest
  | [a; b; c] => [a * 4 + b / 16; (b mod 16) * 16 + c / 4]
  | [a; b] => [a * 4 + b / 16]
  | _ => []
  end.

Definition is_ascii_whitespace (c : N) : bool :=
  (c =? 9) || (c =? 10) || (c =? 12) || (c =? 13) || (c =? 32).

(** When the length is a multiple of 4, one or two [=] at the end are
    removed. *)
Definition strip_padding (data : jsstring) : jsstring :=
  if (N.of_nat (List.length data)) mod 4 =? 0 then
    match rev data with
    | 61 :: 61 :: r => rev r
    | 61 :: r => rev r
    | _ => data
    end
  else data.

Fixpoint indices (data : jsstring) : option (list N) :=
  match data with
  | [] => Some []
  | c :: rest =>
      match b64_index c, indices rest with
      | Some i, Some l => Some (i :: l)
      | _, _ => None
      end
  end.

(** [atob(data)], the forgiving-base64 decode of the Infra standard:
    whitespace is removed, then the padding; a length of 1 modulo 4 or a
    character outside the alphabet throws. *)
Definition atob (data : jsstring) : M jsstring :=
  let data := filter (fun c => negb (is_ascii_whitespace c)) data in
  let data := strip_padding data in
  if (N.of_nat (List.length data)) mod 4 =? 1 then throw InvalidCharacterError
  else match indices data with
       | Some groups => ret (b64_decode groups)
       | None => throw InvalidCharacterError
       end.

(* ================================================================== *)
(** * The share-link codec                                             *)
(* ================================================================== *)

Definition base64UrlEncodeUtf8 (input : jsstring) : M jsstring :=
  let bytes := TextEncoder_encode input in
  (* for (const b of bytes) binary += String.fromCharCode(b) *)
  let binary := fold_left (fun binary b => binary ++ [b]) bytes [] in
  b64 <- btoa binary ;;
  ret (replaceAll 61 [] (replaceAll 47 (js "_") (replaceAll 43 (js "-") b64))).

Definition base64UrlDecodeUtf8 (input : jsstring) : M jsstring :=
  let padded :=
    replaceAll 95 (js "/") (replaceAll 45 (js "+") input)
      ++ slice (N.to_nat ((N.of_nat (List.length input) + 3) mod 4)) (js "===") in
  binary <- atob padded ;;
  (* bytes[i] = binary.charCodeAt(i), stored in a Uint8Array *)
  let bytes := map (fun c => c mod 256) binary in
  ret (TextDecoder_decode bytes).

Local Close Scope N_scope.

(* ================================================================== *)
(** * Numbers as JSON text                                             *)
(* ================================================================== *)

Local Open Scope Z_scope.

(** ** From a decimal to the nearest binary64 value *)

(** The binary64 value nearest to [num / den] ([num > 0], [den > 0]),
    ties to the even significand; a magnitude of 2^1024 or more is
    [Infinity]. *)
Definition nearest_double (num den : Z) : float :=
  let b := Z.log2 num - Z.log2 den in
  let scaled e := if 0 <=? e then num / (den * 2 ^ e) else (num * 2 ^ (- e)) / den in
  let e0 := Z.max (b - 53) (-1074) in
  let e := if 2 ^ 53 <=? scaled e0 then e0 + 1 else e0 in
  let n := if 0 <=? e then num else num * 2 ^ (- e) in
  let d := if 0 <=? e then den * 2 ^ e else den in
  let q := n / d in
  let r := n mod d in
  let up := (d <? 2 * r) || ((d =? 2 * r) && Z.odd q) in
  let mant := if up then q + 1 else q in
  let '(mant, e) := if mant =? 2 ^ 53 then (2 ^ 52, e + 1) else (mant, e) in
  match mant with
  | Zpos p => if 1024 <? Z.log2 mant + 1 + e then infinity
              else SF2Prim (S754_finite false p e)
  | _ => 0%float
  end.

(** ** [Number::toString] *)

(** The exact value of a finite positive [float] with significand [m]
    and exponent [e], as a fraction. *)
Definition exact_num (m : positive) (e : Z) : Z := if 0 <=? e then Zpos m * 2 ^ e else Zpos m.
Definition exact_den (e : Z) : Z := if 0 <=? e then 1 else 2 ^ (- e).

(** [num / den < 10^n]. *)
Definition below_pow10 (num den n : Z) : bool :=
  if 0 <=? n then num <? den * 10 ^ n else num * 10 ^ (- n) <? den.

(** The [n] with [10^(n-1) <= num/den < 10^n], searched upwards from an
    underestimate. *)
Fixpoint magnitude_from (fuel : nat) (num den n : Z) : Z :=
  match fuel with
  | O => n
  | S fuel' => if below_pow10 num den n then n else magnitude_from fuel' num den (n + 1)
  end.

Definition magnitude (num den : Z) : Z :=
  let b := Z.log2 num - Z.log2 den in
  magnitude_from 8 num den ((b - 1) * 30103 / 100000 - 1).

(** [floor (num/den / 10^t)]. *)
Definition scaled_floor (num den t : Z) : Z :=
  if 0 <=? t then num / (den * 10 ^ t) else (num * 10 ^ (- t)) / den.

(** Whether [s * 10^t] is read back as [x]. *)
Definition reads_back (x : float) (s t : Z) : bool :=
  PrimFloat.Leibniz.eqb x
    (if 0 <=? t then nearest_double (s * 10 ^ t) 1 else nearest_double s (10 ^ (- t))).

(** Among the two [k]-digit decimals around [num/den], the one that is
    read back as [x], the closer one (the even one on a tie) when both
    are: [Some (s, n)] stands for [s * 10^(n-k)]. *)
Definition candidate (x : float) (num den n0 k : Z) : option (Z * Z) :=
  let t := n0 - k in
  let lo := scaled_floor num den t in
  let hi := lo + 1 in
  (* 2 * (v / 10^t) compared with lo + hi *)
  let twice := if 0 <=? t then (2 * num, den * 10 ^ t) else (2 * num * 10 ^ (- t), den) in
  let prefer_hi :=
    let '(a, b) := twice in
    ((lo + hi) * b <? a) || (((lo + hi) * b =? a) && Z.even hi) in
  let ok_lo := (10 ^ (k - 1) <=? lo) && reads_back x lo t in
  let ok_hi := reads_back x hi t in
  let pick s := if s =? 10 ^ k then Some (10 ^ (k - 1), n0 + 1) else Some (s, n0) in
  if ok_lo && ok_hi then pick (if prefer_hi then hi else lo)
  else if ok_lo then pick lo
  else if ok_hi then pick hi
  else None.

(** The shortest decimal that is read back as [x]: its digits [s], their
    number [k] and the position [n] of the decimal point. *)
Fixpoint shortest_from (fuel : nat) (x : float) (num den n0 k : Z) : Z * Z * Z :=
  match fuel with
  | O => (0, k, n0)
  | S fuel' =>
      match candidate x num den n0 k with
      | Some (s, n) => (s, k, n)
      | None => shortest_from fuel' x num den n0 (k + 1)
      end
  end.

Definition zeros (n : Z) : jsstring := repeat 48%N (Z.to_nat n).

(** The text of [s * 10^(n-k)], [s] having [k] digits. *)
Definition format_decimal (s k n : Z) : jsstring :=
  let ds := digits (Z.to_N s) in
  if (k <=? n) && (n <=? 21) then ds ++ zeros (n - k)
  else if (0 <? n) && (n <=? 21) then
    firstn (Z.to_nat n) ds ++ js "." ++ skipn (Z.to_nat n) ds
  else if (-6 <? n) && (n <=? 0) then js "0." ++ zeros (- n) ++ ds
  else
    let e := n - 1 in
    let exponent := (if e <? 0 then js "-" else js "+") ++ digits (Z.to_N (Z.abs e)) in
    if k =? 1 then ds ++ js "e" ++ exponent
    else firstn 1 ds ++ js "." ++ skipn 1 ds ++ js "e" ++ exponent.

(** [Number::toString(x)], radix 10. *)
Definition Number_toString (x : float) : jsstring :=
  match Prim2SF x with
  | S754_nan => js "NaN"
  | S754_infinity s => if s then js "-Infinity" else js "Infinity"
  | S754_zero _ => js "0"
  | S754_finite sign m e =>
      let num := exact_num m e in
      let den := exact_den e in
      let n0 := magnitude num den in
      let '(s, k, n) := shortest_from 17 (abs x) num den n0 1 in
      (if sign then js "-" else []) ++ format_decimal s k n
  end.

(** ** Reading a JSON number *)

Definition is_digit (c : N) : bool := in_range 48 57 c.

(** The characters a JSON number is made of. *)
Definition is_number_char (c : N) : bool :=
  is_digit c || (c =? 43)%N || (c =? 45)%N || (c =? 46)%N || (c =? 101)%N || (c =? 69)%N.

(** The leading digits of a text, and what follows them. *)
Fixpoint take_digits (s : jsstring) : list Z * jsstring :=
  match s with
  | c :: rest =>
      if is_digit c then let '(ds, r) := take_digits rest in (Z.of_N c - 48 :: ds, r)
      else ([], s)
  | [] => ([], [])
  end.

Definition digits_value (ds : list Z) : Z := fold_left (fun acc d => 10 * acc + d) ds 0.

(** The value of a text that is a JSON number: an optional minus sign;
    an integer part, 0 or a non-zero digit followed by digits; an
    optional fraction, a point and one digit or more; an optional
    exponent, e or E, an optional sign and one digit or more. *)
Definition number_of_token (tok : jsstring) : option float :=
  let '(neg, s) := match tok with 45%N :: s => (true, s) | _ => (false, tok) end in
  let '(int_ds, s) := take_digits s in
  match int_ds with
  | [] => None
  | d :: more =>
      if (d =? 0) && negb (match more with [] => true | _ => false end) then None
      else
        let frac :=
          match s with
          | 46%N :: s' =>
              let '(ds, r) := take_digits s' in
              match ds with [] => None | _ => Some (ds, r) end
          | _ => Some ([], s)
          end in
        match frac with
        | None => None
        | Some (frac_ds, s) =>
            let expo :=
              match s with
              | c :: s' =>
                  if (c =? 101)%N || (c =? 69)%N then
                    let '(eneg, s'') :=
                      match s' with
                      | 45%N :: r => (true, r)
                      | 43%N :: r => (false, r)
                      | _ => (false, s')
                      end in
                    let '(ds, r) := take_digits s'' in
                    match ds, r with
                    | _ :: _, [] => Some (if eneg then - digits_value ds else digits_value ds)
                    | _, _ => None
                    end
                  else None
              | [] => Some 0
              end in
            match expo with
            | None => None
            | Some ex =>
                let mant := digits_value (int_ds ++ frac_ds) in
                let t := ex - Z.of_nat (List.length frac_ds) in
                let magn :=
                  if mant =? 0 then 0%float
                  else if 0 <=? t then nearest_double (mant * 10 ^ t) 1
                  else nearest_double mant (10 ^ (- t)) in
                Some (if neg then (- magn)%float else magn)
            end
        end
  end.

Local Close Scope Z_scope.

(* ================================================================== *)
(** * [JSON.stringify] and [JSON.parse]                                *)
(* ================================================================== *)

Local Open Scope N_scope.

(** ** [JSON.stringify] *)

Definition hex_digit (d : N) : N := if d <? 10 then 48 + d else 87 + d.

(** The escape of a code unit: a backslash, [u] and four lowercase
    hexadecimal digits. *)
Definition unicode_escape (u : N) : jsstring :=
  [92; 117; hex_digit (u / 4096); hex_digit ((u / 256) mod 16);
   hex_digit ((u / 16) mod 16); hex_digit (u mod 16)].

(** A code unit that is not a surrogate, inside a quoted string. *)
Definition quote_unit (u : N) : jsstring :=
  if u =? 8 then [92; 98]
  else if u =? 9 then [92; 116]
  else if u =? 10 then [92; 110]
  else if u =? 12 then [92; 102]
  else if u =? 13 then [92; 114]
  else if u =? 34 then [92; 34]
  else if u =? 92 then [92; 92]
  else if u <? 32 then unicode_escape u
  else [u].

(** The inside of [QuoteJSONString]: a surrogate pair is copied, a
    surrogate without its partner is escaped. *)
Fixpoint quote_body (s : jsstring) : jsstring :=
  match s with
  | [] => []
  | u :: rest =>
      if is_high_surrogate u then
        match rest with
        | l :: rest' =>
            if is_low_surrogate l then u :: l :: quote_body rest'
            else unicode_escape u ++ quote_body rest
        | [] => unicode_escape u
        end
      else if is_low_surrogate u then unicode_escape u ++ quote_body rest
      else quote_unit u ++ quote_body rest
  end.

Definition QuoteJSONString (s : jsstring) : jsstring := 34 :: quote_body s ++ [34].

Fixpoint join_comma (parts : list jsstring) : jsstring :=
  match parts with
  | [] => []
  | [p] => p
  | p :: rest => p ++ 44 :: join_comma rest
  end.

(** [SerializeJSONProperty] with no indentation: [None] is [undefined].
    An element of an array that has no text is printed [null]; a property
    that has no text is left out.  Properties are printed in the order of
    the list (the invoice objects have no integer-like key, which
    JavaScript would print first). *)
Fixpoint stringify (v : value) : option jsstring :=
  match v with
  | Undefined => None
  | Null => Some (js "null")
  | Bool b => Some (if b then js "true" else js "false")
  | Num n => Some (if is_finite n then Number_toString n else js "null")
  | Str s => Some (QuoteJSONString s)
  | Arr elems =>
      Some (91 :: join_comma
                    (map (fun e => match stringify e with Some t => t | None => js "null" end)
                         elems)
               ++ [93])
  | Obj props =>
      Some (123 :: join_comma
                     (flat_map (fun kv => match stringify (snd kv) with
                                          | Some t => [QuoteJSONString (fst kv) ++ 58 :: t]
                                          | None => []
                                          end)
                               props)
                ++ [125])
  end.

(** [JSON.stringify(v)]. *)
Definition JSON_stringify (v : value) : option jsstring := stringify v.

(** ** [JSON.parse] *)

Definition is_json_whitespace (c : N) : bool :=
  (c =? 9) || (c =? 10) || (c =? 13) || (c =? 32).

Fixpoint skip_ws (s : jsstring) : jsstring :=
  match s with
  | c :: rest => if is_json_whitespace c then skip_ws rest else s
  | [] => []
  end.

Definition hex_value (c : N) : option N :=
  if in_range 48 57 c then Some (c - 48)
  else if in_range 97 102 c then Some (c - 87)
  else if in_range 65 70 c then Some (c - 55)
  else None.

(** The character a one-letter escape stands for. *)
Definition simple_escape (c : N) : option N :=
  if c =? 34 then Some 34
  else if c =? 92 then Some 92
  else if c =? 47 then Some 47
  else if c =? 98 then Some 8
  else if c =? 102 then Some 12
  else if c =? 110 then Some 10
  else if c =? 114 then Some 13
  else if c =? 116 then Some 9
  else None.

Definition prepend (u : N) (r : option (jsstring * jsstring)) : option (jsstring * jsstring) :=
  match r with
  | Some (s, rest) => Some (u :: s, rest)
  | None => None
  end.

(** The characters of a string after its opening quote, up to the
    closing one, and the text after it. *)
Fixpoint parse_chars (s : jsstring) : option (jsstring * jsstring) :=
  match s with
  | [] => None
  | c :: rest =>
      if c =? 34 then Some ([], rest)
      else if c =? 92 then
        match rest with
        | e :: rest1 =>
            if e =? 117 then
              match rest1 with
              | h1 :: h2 :: h3 :: h4 :: rest2 =>
                  match hex_value h1, hex_value h2, hex_value h3, hex_value h4 with
                  | Some a, Some b, Some c', Some d =>
                      prepend (a * 4096 + b * 256 + c' * 16 + d) (parse_chars rest2)
                  | _, _, _, _ => None
                  end
              | _ => None
              end
            else
              match simple_escape e with
              | Some u => prepend u (parse_chars rest1)
              | None => None
              end
        | [] => None
        end
      else if c <? 32 then None
      else prepend c (parse_chars rest)
  end.

(** The longest prefix made of number characters, and the rest. *)
Fixpoint span_number (s : jsstring) : jsstring * jsstring :=
  match s with
  | c :: rest =>
      if is_number_char c then let '(tok, r) := span_number rest in (c :: tok, r)
      else ([], s)
  | [] => ([], [])
  end.

(** [CreateDataProperty]: a key read again replaces the value it had and
    keeps its place. *)
Fixpoint set_prop (k : jsstring) (v : value) (props : list (jsstring * value))
  : list (jsstring * value) :=
  match props with
  | [] => [(k, v)]
  | (k', v') :: rest =>
      if jsstring_eqb k k' then (k', v) :: rest else (k', v') :: set_prop k v rest
  end.

Definition object_of (members : list (jsstring * value)) : value :=
  Obj (fold_left (fun props kv => set_prop (fst kv) (snd kv) props) members []).

(** The literals [true], [false] and [null]. *)
Definition parse_literal (s : jsstring) : option (value * jsstring) :=
  match s with
  | 116 :: 114 :: 117 :: 101 :: rest => Some (Bool true, rest)
  | 102 :: 97 :: 108 :: 115 :: 101 :: rest => Some (Bool false, rest)
  | 110 :: 117 :: 108 :: 108 :: rest => Some (Null, rest)
  | _ => None
  end.

(** A value and the text after it.  [fuel] bounds the nesting of the
    calls: a value, the elements after it, the members after it. *)
Fixpoint parse_value (fuel : nat) (s : jsstring) : option (value * jsstring) :=
  match fuel with
  | O => None
  | S fuel' =>
      match skip_ws s with
      | [] => None
      | c :: rest =>
          if c =? 123 then
            match skip_ws rest with
            | c' :: rest' =>
                if c' =? 125 then Some (Obj [], rest')
                else
                  match parse_members fuel' rest with
                  | Some (members, rest'') => Some (object_of members, rest'')
                  | None => None
                  end
            | [] => None
            end
          else if c =? 91 then
            match skip_ws rest with
            | c' :: rest' =>
                if c' =? 93 then Some (Arr [], rest')
                else
                  match parse_elements fuel' rest with
                  | Some (elems, rest'') => Some (Arr elems, rest'')
                  | None => None
                  end
            | [] => None
            end
          else if c =? 34 then
            match parse_chars rest with
            | Some (str, rest') => Some (Str str, rest')
            | None => None
            end
          else if is_number_char c then
            let '(tok, rest') := span_number (c :: rest) in
            match number_of_token tok with
            | Some x => Some (Num x, rest')
            | None => None
            end
          else parse_literal (c :: rest)
      end
  end

with parse_elements (fuel : nat) (s : jsstring) : option (list value * jsstring) :=
  match fuel with
  | O => None
  | S fuel' =>
      match parse_value fuel' s with
      | Some (v, rest) =>
          match skip_ws rest with
          | c :: rest' =>
              if c =? 44 then
                match parse_elements fuel' rest' with
                | Some (vs, rest'') => Some (v :: vs, rest'')
                | None => None
                end
              else if c =? 93 then Some ([v], rest')
              else None
          | [] => None
          end
      | None => None
      end
  end

with parse_members (fuel : nat) (s : jsstring)
  : option (list (jsstring * value) * jsstring) :=
  match fuel with
  | O => None
  | S fuel' =>
      match skip_ws s with
      | c :: rest =>
          if c =? 34 then
            match parse_chars rest with
            | Some (k, rest1) =>
                match skip_ws rest1 with
                | c1 :: rest2 =>
                    if c1 =? 58 then
                      match parse_value fuel' rest2 with
                      | Some (v, rest3) =>
                          match skip_ws rest3 with
                          | c3 :: rest4 =>
                              if c3 =? 44 then
                                match parse_members fuel' rest4 with
                                | Some (ms, rest5) => Some ((k, v) :: ms, rest5)
                                | None => None
                                end
                              else if c3 =? 125 then Some ([(k, v)], rest4)
                              else None
                          | [] => None
                          end
                      | None => None
                      end
                    else None
                | [] => None
                end
            | None => None
            end
          else None
      | [] => None
      end
  end.

(** [JSON.parse(text)]: one value, with nothing but whitespace after it;
    [None] is a [SyntaxError]. *)
Definition JSON_parse (text : jsstring) : option value :=
  match parse_value (S (List.length text)) text with
  | Some (v, rest) => match skip_ws rest with [] => Some v | _ => None end
  | None => None
  end.

Local Close Scope N_scope.

(* ================================================================== *)
(** * Reading the invoice from the URL                                 *)
(* ================================================================== *)

Local Open Scope js_scope.

(** [safeJsonParse]: the parsed value, [null] when parsing throws. *)
Definition safeJsonParse (s : jsstring) : value :=
  match JSON_parse s with
  | Some v => v
  | None => Null
  end.

Section Url.

Variable E : Env.

(** The value of the module constant [exampleInvoice]. *)
Variable example : Invoice.

(** [parseInvoiceFromUrl()].  [location] is [None] when there is no
    [window]; otherwise it holds [params.get('data')], [None] standing
    for [null]. *)
Definition parseInvoiceFromUrl (location : option (option jsstring))
  : M (Invoice * jsstring) :=
  let fallback :=
    invoice <- normalizeInvoice E (invoice_value example) ;; ret (invoice, []) in
  match location with
  | None => fallback
  | Some None => fallback
  | Some (Some []) => fallback
  | Some (Some data) =>
      try_catch
        (json <- base64UrlDecodeUtf8 data ;;
         let parsed := safeJsonParse json in
         if negb (truthy parsed) then fallback
         else
           invoice <- normalizeInvoice E parsed ;;
           ret (invoice, js "Loaded invoice from share link."))
        fallback
  end.

(** [copyShareLink], up to the token put in the URL.  [JSON.stringify]
    of an object always gives a text: the second case never arises. *)
Definition shareToken (invoice : Invoice) : M jsstring :=
  match JSON_stringify (invoice_value invoice) with
  | Some json => base64UrlEncodeUtf8 json
  | None => throw TypeError
  end.

End Url.

(* ================================================================== *)
(** * The handlers of the component                                    *)
(* ================================================================== *)

(** What the handlers read and write: the two pieces of state of the
    component, and the entry of [localStorage] under [STORAGE_KEY]
    ([None] when there is none).  The storage is taken to be available
    and to have room: [setItem] does not throw. *)
Record Component : Type := mkComponent {
  shown : Invoice;
  status : jsstring;
  stored : option jsstring
}.

Section Handlers.

Variable E : Env.

(** The module constant [exampleInvoice], built once when the module is
    loaded. *)
Variable example : Invoice.

Definition loadExample (c : Component) : M Component :=
  inv <- normalizeInvoice E (invoice_value example) ;;
  ret {| shown := inv; status := js "Loaded example invoice."; stored := stored c |}.

(** [setItem] stores the string of its argument. *)
Definition saveLocal (c : Component) : Component :=
  let text := match JSON_stringify (invoice_value (shown c)) with
              | Some t => t
              | None => js "undefined"
              end in
  {| shown := shown c;
     status := js "Saved to this browser (localStorage).";
     stored := Some text |}.

Definition loadLocal (c : Component) : M Component :=
  let raw := match stored c with Some t => Str t | None => Null end in
  if negb (truthy raw) then
    ret {| shown := shown c; status := js "No saved invoice found in this browser.";
           stored := stored c |}
  else
    let parsed := match raw with Str t => safeJsonParse t | _ => Undefined end in
    if negb (truthy parsed) then
      ret {| shown := shown c; status := js "Saved data was corrupted.";
             stored := stored c |}
    else
      inv <- normalizeInvoice E parsed ;;
      ret {| shown := inv; status := js "Loaded saved invoice from this browser.";
             stored := stored c |}.

End Handlers.

(* ================================================================== *)
(** * Verification                                                    *)
(* ================================================================== *)

Unset Implicit Arguments.

Local Open Scope js_scope.

(* ================================================================== *)
(** * Facts about strings and the monad                                *)
(* ================================================================== *)

Lemma jsstring_eqb_eq (a b : jsstring) : jsstring_eqb a b = true <-> a = b.
Proof.
  revert b; induction a as [|x a IH]; intros [|y b]; simpl; split; intro H;
    try reflexivity; try discriminate.
  - apply andb_true_iff in H as [Hx Hab]. apply N.eqb_eq in Hx.
    apply IH in Hab. congruence.
  - injection H as -> ->. rewrite N.eqb_refl. simpl. now apply IH.
Qed.

Lemma jsstring_eqb_refl (a : jsstring) : jsstring_eqb a a = true.
Proof. now apply jsstring_eqb_eq. Qed.

Lemma jsstring_eqb_neq (a b : jsstring) : jsstring_eqb a b = false <-> a <> b.
Proof.
  split.
  - intros H Heq. apply jsstring_eqb_eq in Heq. congruence.
  - intro H. destruct (jsstring_eqb a b) eqn:Hab; [|reflexivity].
    apply jsstring_eqb_eq in Hab. contradiction.
Qed.

(** [a ?? d] as a value. *)
Definition dflt (a d : value) : value := if is_nullish a then d else a.

Lemma coalesce_ret (a d : value) : coalesce a (ret d) = ret (dflt a d).
Proof. unfold coalesce, dflt. now destruct (is_nullish a). Qed.

Lemma getprop_ret (v : value) (k : string) :
  is_nullish v = false -> getprop v k = ret (prop_of v k).
Proof. unfold getprop. now intros ->. Qed.

Lemma getprop_opt_ret (v : value) (k : string) : getprop_opt v k = ret (prop_of v k).
Proof. now destruct v. Qed.

Lemma dflt_not_nullish (a d : value) : is_nullish d = false -> is_nullish (dflt a d) = false.
Proof. unfold dflt. now destruct (is_nullish a) eqn:Ha. Qed.

Lemma dflt_id (a d : value) : is_nullish a = false -> dflt a d = a.
Proof. unfold dflt. now intros ->. Qed.

Section Normalizer.

Variable E : Env.

(** ** One entry of [items] *)

(** The item [normalizeItem] builds from the entry [it] when [n] calls of
    [uid()] came before. *)
Definition coerced (it : value) (n : nat) : LineItem :=
  {| id := match prop_of it "id" with Str s => s | _ => uid_at E n end;
     description := match prop_of it "description" with Str s => s | _ => [] end;
     quantity := match prop_of it "quantity" with Num q => q | _ => 1%float end;
     unitPrice := match prop_of it "unitPrice" with Num p => p | _ => 0%float end |}.

Lemma normalizeItem_run (it : value) (n : nat) :
  normalizeItem E it n =
  (Return (coerced it n), if is_string (prop_of it "id") then n else S n).
Proof.
  unfold normalizeItem, coerced. rewrite !getprop_opt_ret.
  destruct (prop_of it "id"); reflexivity.
Qed.

(** The items [input.items.map(...)] builds, with the call count after. *)
Fixpoint coerced_all (elems : list value) (n : nat) : list LineItem * nat :=
  match elems with
  | [] => ([], n)
  | it :: rest =>
      let n1 := if is_string (prop_of it "id") then n else S n in
      let '(its, n2) := coerced_all rest n1 in
      (coerced it n :: its, n2)
  end.

Lemma mapM_normalizeItem_run (elems : list value) (n : nat) :
  mapM (normalizeItem E) elems n =
  (Return (fst (coerced_all elems n)), snd (coerced_all elems n)).
Proof.
  revert n; induction elems as [|it rest IH]; intro n; [reflexivity|].
  cbn [mapM coerced_all]. unfold bind at 1. rewrite normalizeItem_run.
  unfold bind at 1. rewrite IH.
  destruct (coerced_all rest _) as [its n2]. reflexivity.
Qed.

Lemma coerced_all_length (elems : list value) (n : nat) :
  List.length (fst (coerced_all elems n)) = List.length elems.
Proof.
  revert n; induction elems as [|it rest IH]; intro n; [reflexivity|].
  cbn [coerced_all]. specialize (IH (if is_string (prop_of it "id") then n else S n)).
  destruct (coerced_all rest _) as [its n2]. simpl in *. now rewrite IH.
Qed.


(** ** The whole object *)

(** The items of the result and the call count after them. *)
Definition items_run (v : value) (n : nat) : list LineItem * nat :=
  match prop_of v "items" with
  | Arr elems => coerced_all elems n
  | _ => ([ {| id := uid_at E n; description := js "Service";
               quantity := 1; unitPrice := 0 |} ], S n)
  end.

Definition normalized (v : value) (n : nat) : Invoice :=
  {| fromName := dflt (prop_of v "fromName") (Str []);
     fromAddress := dflt (prop_of v "fromAddress") (Str []);
     billToName := dflt (prop_of v "billToName") (Str []);
     billToAddress := dflt (prop_of v "billToAddress") (Str []);
     invoiceNumber := dflt (prop_of v "invoiceNumber") (Str []);
     issueDate := dflt (prop_of v "issueDate") (Str (format_date (date_in E 0)));
     dueDate := dflt (prop_of v "dueDate") (Str (format_date (date_in E 14)));
     currency := dflt (prop_of v "currency") (Str (js "USD"));
     taxRatePct := match prop_of v "taxRatePct" with Num t => t | _ => 0%float end;
     notes := dflt (prop_of v "notes") (Str []);
     items := fst (items_run v n) |}.

Lemma coalesce_today (a : value) :
  coalesce a (d <- todayISO E ;; ret (Str d)) = ret (dflt a (Str (format_date (date_in E 0)))).
Proof. unfold coalesce, dflt. now destruct (is_nullish a). Qed.

Lemma coalesce_due (a : value) :
  coalesce a (d <- plusDaysISO E 14 ;; ret (Str d))
  = ret (dflt a (Str (format_date (date_in E 14)))).
Proof. unfold coalesce, dflt. now destruct (is_nullish a). Qed.

Lemma bind_ret {A B} (a : A) (k : A -> M B) (n : nat) : bind (ret a) k n = k a n.
Proof. reflexivity. Qed.

(** [normalizeInvoice] throws on [null] and [undefined] and nowhere else. *)
Lemma normalizeInvoice_nullish (v : value) (n : nat) :
  is_nullish v = true -> normalizeInvoice E v n = (Throw TypeError, n).
Proof. destruct v; try discriminate; reflexivity. Qed.

Lemma normalizeInvoice_run (v : value) (n : nat) :
  is_nullish v = false ->
  normalizeInvoice E v n = (Return (normalized v n), snd (items_run v n)).
Proof.
  intro Hv. unfold normalizeInvoice.
  pose proof (fun k => getprop_ret v k Hv) as G.
  repeat (first [ rewrite G | rewrite coalesce_ret | rewrite coalesce_today
                 | rewrite coalesce_due | rewrite bind_ret ]; cbv beta).
  unfold normalized, items_run.
  destruct (prop_of v "items") as [| |b|x|s|elems|props];
    try reflexivity.
  unfold bind at 1. rewrite mapM_normalizeItem_run. reflexivity.
Qed.

End Normalizer.

(* ================================================================== *)
(** * The normalizer: typing, defaults, idempotence                    *)
(* ================================================================== *)

(** A sample environment for the closed examples: the [n]-th identifier
    is ["id"] followed by [n], and today is 15 January 2026. *)
Definition E0 : Env :=
  {| uid_at := fun n => js "id" ++ digits (N.of_nat n);
     date_in := fun k => (2026, 0, 15 + k)%Z |}.

(** The example invoice as the module builds it in the sample
    environment. *)
Definition example0 : Invoice :=
  {| fromName := Str (js "Acme Studio LLC");
     fromAddress := Str (js "1-2-3 Shibuya" ++ [10%N] ++ js "Tokyo, Japan");
     billToName := Str (js "Client Co.");
     billToAddress := Str (js "500 Market St" ++ [10%N] ++ js "San Francisco, CA");
     invoiceNumber := Str (js "INV-1007");
     issueDate := Str (js "2026-01-15");
     dueDate := Str (js "2026-01-29");
     currency := Str (js "USD");
     taxRatePct := 10;
     notes := Str (js "Thank you for your business. Please include the invoice number on your payment reference.");
     items := [ {| id := js "id0"; description := js "Landing page design (Figma)";
                   quantity := 1; unitPrice := 900 |};
                {| id := js "id1"; description := js "Implementation (Next.js)";
                   quantity := 10; unitPrice := 90 |} ] |}.

Example exampleInvoice_loaded : exampleInvoice E0 0 = (Return example0, 2%nat).
Proof. reflexivity. Qed.

(** The fields TypeScript declares as [string], by name. *)
Definition string_fields : list (string * (Invoice -> value)) :=
  [ ("fromName", fromName); ("fromAddress", fromAddress);
    ("billToName", billToName); ("billToAddress", billToAddress);
    ("invoiceNumber", invoiceNumber); ("issueDate", issueDate);
    ("dueDate", dueDate); ("currency", currency); ("notes", notes) ]%string.

(** The six fields whose default is the empty string. *)
Definition text_fields : list (string * (Invoice -> value)) :=
  [ ("fromName", fromName); ("fromAddress", fromAddress);
    ("billToName", billToName); ("billToAddress", billToAddress);
    ("invoiceNumber", invoiceNumber); ("notes", notes) ]%string.

(** Every field has the primitive type the model declares.  [taxRatePct]
    and the four fields of each item have it by the types of [Invoice]
    and [LineItem]; the nine string fields must hold strings. *)
Definition well_typed (inv : Invoice) : Prop :=
  Forall (fun f => is_string (snd f inv) = true) string_fields.

Section NormalizerClaims.

Variable E : Env.

(** C2, amended.  For every input other than [null] and [undefined],
    [normalizeInvoice] returns an invoice (it throws on those two and
    nowhere else) in which [taxRatePct] is a number and every item has a
    string [id], a string [description] and numeric [quantity] and
    [unitPrice] (the types of [Invoice] and [LineItem]); each of the nine
    string fields is a string whenever the input's field is absent,
    [null] or a string, and is never [null] or [undefined]; and [items]
    is non-empty whenever the input's [items] is not an empty array. *)
Theorem C2_normalize_typing (v : value) (n : nat) :
  match normalizeInvoice E v n with
  | (Return inv, _) =>
      is_nullish v = false /\
      Forall (fun f =>
                is_nullish (snd f inv) = false /\
                ((is_nullish (prop_of v (fst f)) || is_string (prop_of v (fst f))) = true ->
                 is_string (snd f inv) = true))
             string_fields /\
      (prop_of v "items" <> Arr [] -> items inv <> [])
  | (Throw e, _) => e = TypeError /\ is_nullish v = true
  end.
Proof.
  destruct (is_nullish v) eqn:Hv.
  - rewrite normalizeInvoice_nullish by assumption. now split.
  - rewrite normalizeInvoice_run by assumption. split; [reflexivity|]. split.
    + unfold string_fields, normalized.
      repeat (apply Forall_cons || apply Forall_nil); cbn [fst snd fromName fromAddress
        billToName billToAddress invoiceNumber issueDate dueDate currency notes];
        (split; [now apply dflt_not_nullish|]);
        unfold dflt;
        match goal with |- context [prop_of v ?k] => destruct (prop_of v k) end;
        simpl; congruence.
    + unfold normalized, items_run. cbn [items].
      destruct (prop_of v "items") as [| |b|x|s|elems|props]; try (simpl; discriminate).
      destruct elems as [|it rest]; [congruence|]. intros _.
      cbn [coerced_all]. destruct (coerced_all E rest _). simpl. discriminate.
Qed.

(** C7, amended.  For each of [fromName], [fromAddress], [billToName],
    [billToAddress], [invoiceNumber] and [notes]: the result's field is
    the empty string when the input's field is absent ([undefined]) or
    [null], and is the input's value, unchanged, in every other case;
    in particular a string is kept. *)
Theorem C7_text_field_default (v : value) (n : nat) :
  match normalizeInvoice E v n with
  | (Return inv, _) =>
      Forall (fun f =>
                snd f inv = if is_nullish (prop_of v (fst f)) then Str []
                            else prop_of v (fst f))
             text_fields
  | (Throw _, _) => is_nullish v = true
  end.
Proof.
  destruct (is_nullish v) eqn:Hv.
  - now rewrite normalizeInvoice_nullish.
  - rewrite normalizeInvoice_run by assumption.
    unfold text_fields. repeat (apply Forall_cons || apply Forall_nil); reflexivity.
Qed.

(** ** Idempotence *)

Lemma item_value_id (it : LineItem) : prop_of (item_value it) "id" = Str (id it).
Proof. reflexivity. Qed.

Lemma coerced_item_value (it : LineItem) (n : nat) : coerced E (item_value it) n = it.
Proof. destruct it; reflexivity. Qed.

Lemma mapM_item_value (its : list LineItem) (n : nat) :
  mapM (normalizeItem E) (map item_value its) n = (Return its, n).
Proof.
  induction its as [|it rest IH]; [reflexivity|].
  cbn [map mapM]. unfold bind at 1. rewrite normalizeItem_run.
  rewrite item_value_id, coerced_item_value. cbn [is_string].
  unfold bind at 1. rewrite IH. reflexivity.
Qed.

(** Normalizing the object of an invoice none of whose string fields is
    [null] or [undefined] gives the invoice back and calls [uid()] not
    once. *)
Lemma normalizeInvoice_fixed (inv : Invoice) (n : nat) :
  Forall (fun f => is_nullish (snd f inv) = false) string_fields ->
  normalizeInvoice E (invoice_value inv) n = (Return inv, n).
Proof.
  intro H. unfold string_fields in H.
  repeat match goal with
         | H : Forall _ (_ :: _) |- _ => apply Forall_cons_iff in H as [? H]
         end.
  cbn [fst snd] in *.
  unfold normalizeInvoice.
  repeat (first [ rewrite getprop_ret by reflexivity | rewrite coalesce_ret
                | rewrite coalesce_today | rewrite coalesce_due | rewrite bind_ret ];
          cbv beta).
  change (prop_of (invoice_value inv) "items") with (Arr (map item_value (items inv))).
  cbv iota. unfold bind at 1. rewrite mapM_item_value.
  change (prop_of (invoice_value inv) "fromName") with (fromName inv).
  change (prop_of (invoice_value inv) "fromAddress") with (fromAddress inv).
  change (prop_of (invoice_value inv) "billToName") with (billToName inv).
  change (prop_of (invoice_value inv) "billToAddress") with (billToAddress inv).
  change (prop_of (invoice_value inv) "invoiceNumber") with (invoiceNumber inv).
  change (prop_of (invoice_value inv) "issueDate") with (issueDate inv).
  change (prop_of (invoice_value inv) "dueDate") with (dueDate inv).
  change (prop_of (invoice_value inv) "currency") with (currency inv).
  change (prop_of (invoice_value inv) "notes") with (notes inv).
  change (prop_of (invoice_value inv) "taxRatePct") with (Num (taxRatePct inv)).
  rewrite !dflt_id by assumption. destruct inv; reflexivity.
Qed.

(** Whatever its string fields hold, normalizing the object of an
    invoice keeps its items, ids included, and calls [uid()] not once. *)
Lemma normalizeInvoice_keeps_items (inv : Invoice) (n : nat) :
  exists inv', normalizeInvoice E (invoice_value inv) n = (Return inv', n)
               /\ items inv' = items inv.
Proof.
  rewrite normalizeInvoice_run by reflexivity.
  unfold items_run.
  change (prop_of (invoice_value inv) "items") with (Arr (map item_value (items inv))).
  cbv iota.
  pose proof (mapM_item_value (items inv) n) as Hm.
  rewrite mapM_normalizeItem_run in Hm. injection Hm as Hi Hn.
  eexists. split; [rewrite Hn; reflexivity|]. unfold normalized, items_run.
  change (prop_of (invoice_value inv) "items") with (Arr (map item_value (items inv))).
  cbv iota. exact Hi.
Qed.

(** C4.  [normalizeInvoice(normalizeInvoice(v))] is [normalizeInvoice(v)]
    for every input [v] (both throw when [v] is [null] or [undefined]),
    and normalizing the object of any invoice keeps every item, its [id]
    included, without generating an identifier. *)
Theorem C4_normalize_idempotent (v : value) (n : nat) :
  (inv <- normalizeInvoice E v ;; normalizeInvoice E (invoice_value inv)) n
  = normalizeInvoice E v n
  /\ (forall inv : Invoice,
        exists inv', normalizeInvoice E (invoice_value inv) n = (Return inv', n)
                     /\ map id (items inv') = map id (items inv)).
Proof.
  split.
  - unfold bind. destruct (is_nullish v) eqn:Hv.
    + now rewrite normalizeInvoice_nullish.
    + rewrite normalizeInvoice_run by assumption.
      apply normalizeInvoice_fixed.
      unfold string_fields, normalized.
      repeat (apply Forall_cons || apply Forall_nil); cbn [fst snd fromName fromAddress
        billToName billToAddress invoiceNumber issueDate dueDate currency notes];
        now apply dflt_not_nullish.
  - intro inv. destruct (normalizeInvoice_keeps_items inv n) as [inv' [H1 H2]].
    exists inv'. split; [exact H1 | now rewrite H2].
Qed.

End NormalizerClaims.

(** C2, as stated, fails twice: a field that holds a number is passed
    through by [??], and an empty [items] array is mapped to an empty
    array. *)
Lemma C2_counterexample :
  (exists inv n',
      normalizeInvoice E0 (Obj [(js "fromName", Num 42)]) 0 = (Return inv, n')
      /\ fromName inv = Num 42 /\ ~ well_typed inv)
  /\ (exists inv n',
         normalizeInvoice E0 (Obj [(js "items", Arr [])]) 0 = (Return inv, n')
         /\ items inv = []).
Proof.
  split.
  - eexists. eexists. split; [reflexivity|]. split; [reflexivity|].
    intro H. apply Forall_inv in H. discriminate H.
  - eexists. eexists. split; reflexivity.
Qed.

(** The theorem on the empty object: every string field is defaulted and
    the items are the single default item. *)
Lemma C2_normalize_typing_witness :
  prop_of (Obj []) "items" <> Arr []
  /\ match normalizeInvoice E0 (Obj []) 0 with
     | (Return inv, _) =>
         is_nullish (Obj []) = false /\
         Forall (fun f =>
                   is_nullish (snd f inv) = false /\
                   ((is_nullish (prop_of (Obj []) (fst f))
                     || is_string (prop_of (Obj []) (fst f))) = true ->
                    is_string (snd f inv) = true))
                string_fields /\
         (prop_of (Obj []) "items" <> Arr [] -> items inv <> [])
     | (Throw e, _) => e = TypeError /\ is_nullish (Obj []) = true
     end.
Proof.
  split; [discriminate|]. exact (C2_normalize_typing E0 (Obj []) 0).
Defined.

(** C7, as stated, fails: [fromName: 42] is not a string, and the result
    keeps the number instead of the empty string. *)
Lemma C7_counterexample :
  let v := Obj [(js "fromName", Num 42)] in
  is_string (prop_of v "fromName") = false
  /\ exists inv n',
       normalizeInvoice E0 v 0 = (Return inv, n')
       /\ fromName inv = Num 42 /\ fromName inv <> Str [].
Proof.
  split; [reflexivity|]. eexists. eexists.
  split; [reflexivity|]. split; [reflexivity|discriminate].
Qed.

(* ================================================================== *)
(** * The normalizer: items                                            *)
(* ================================================================== *)

Section Items.

Variable E : Env.




End Items.



(* ================================================================== *)
(** * Editing the items                                                *)
(* ================================================================== *)

Lemma with_items_same (inv : Invoice) : with_items inv (items inv) = inv.
Proof. now destruct inv. Qed.

(** With a single item, [removeItem] changes nothing. *)
Lemma removeItem_single (id0 : jsstring) (prev : Invoice) :
  List.length (items prev) = 1%nat -> removeItem id0 prev = prev.
Proof.
  intro H. unfold removeItem. rewrite H. simpl. apply with_items_same.
Qed.

(** With more than one item, [removeItem] keeps, in order, exactly the
    items whose id differs from the given one. *)
Lemma removeItem_many (id0 : jsstring) (prev : Invoice) :
  (1 < List.length (items prev))%nat ->
  items (removeItem id0 prev)
  = filter (fun it => negb (jsstring_eqb (id it) id0)) (items prev)
  /\ forall it, In it (items (removeItem id0 prev)) <-> In it (items prev) /\ id it <> id0.
Proof.
  intro H. unfold removeItem.
  destruct (Nat.leb_spec (List.length (items prev)) 1); [lia|].
  cbn [items with_items]. split; [reflexivity|].
  intro it. rewrite filter_In, negb_true_iff, jsstring_eqb_neq. tauto.
Qed.

(** The items stay non-empty when some item has another id. *)
Lemma removeItem_nonempty (id0 : jsstring) (prev : Invoice) :
  items prev <> [] ->
  (List.length (items prev) = 1%nat \/ exists it, In it (items prev) /\ id it <> id0) ->
  items (removeItem id0 prev) <> [].
Proof.
  intros Hne [H1|[it [Hin Hid]]].
  - now rewrite removeItem_single.
  - destruct (Nat.leb_spec (List.length (items prev)) 1) as [Hle|Hgt].
    + unfold removeItem. apply Nat.leb_le in Hle. rewrite Hle. exact Hne.
    + destruct (removeItem_many id0 prev Hgt) as [_ Hiff].
      intro Hnil. assert (Hi : In it (items (removeItem id0 prev))) by now apply Hiff.
      rewrite Hnil in Hi. contradiction.
Qed.

(** An invoice whose two items carry the same id, as a share link can
    deliver it: [normalizeInvoice] keeps any string id. *)
Definition twin_items : Invoice :=
  {| fromName := Str []; fromAddress := Str []; billToName := Str [];
     billToAddress := Str []; invoiceNumber := Str []; issueDate := Str [];
     dueDate := Str []; currency := Str (js "USD"); taxRatePct := 0; notes := Str [];
     items := [ {| id := js "a"; description := js "x"; quantity := 1; unitPrice := 1 |};
                {| id := js "a"; description := js "y"; quantity := 2; unitPrice := 2 |} ] |}.

(** C9, amended.  For an invoice with a non-empty items list: with
    exactly one item [removeItem(id)] changes nothing; with more than one
    it keeps, in their order, exactly the items whose id differs from
    [id]; and the items stay non-empty whenever there is a single item or
    some item has another id, as is the case when the ids are pairwise
    distinct. *)
Theorem C9_removeItem (id0 : jsstring) (prev : Invoice) :
  items prev <> [] ->
  (List.length (items prev) = 1%nat -> removeItem id0 prev = prev)
  /\ ((1 < List.length (items prev))%nat ->
      items (removeItem id0 prev)
      = filter (fun it => negb (jsstring_eqb (id it) id0)) (items prev)
      /\ forall it, In it (items (removeItem id0 prev))
                    <-> In it (items prev) /\ id it <> id0)
  /\ ((List.length (items prev) = 1%nat \/ exists it, In it (items prev) /\ id it <> id0) ->
      items (removeItem id0 prev) <> []).
Proof.
  intro Hne. split; [apply removeItem_single|]. split; [apply removeItem_many|].
  now apply removeItem_nonempty.
Qed.

(** The theorem on the example invoice, removing its first item. *)
Lemma C9_removeItem_witness :
  items example0 <> []
  /\ (List.length (items example0) = 1%nat -> removeItem (js "id0") example0 = example0)
  /\ ((1 < List.length (items example0))%nat ->
      items (removeItem (js "id0") example0)
      = filter (fun it => negb (jsstring_eqb (id it) (js "id0"))) (items example0)
      /\ forall it, In it (items (removeItem (js "id0") example0))
                    <-> In it (items example0) /\ id it <> js "id0")
  /\ ((List.length (items example0) = 1%nat
       \/ exists it, In it (items example0) /\ id it <> js "id0") ->
      items (removeItem (js "id0") example0) <> []).
Proof.
  assert (H : items example0 <> []) by discriminate.
  split; [exact H|]. exact (C9_removeItem (js "id0") example0 H).
Defined.

(** C9, as stated, fails when every item carries the id being removed:
    the invoice has two items, so the guard on the length lets the
    filter run, and the filter leaves no item.  The invoice is one
    [normalizeInvoice] returns, for it keeps any string id. *)
Lemma C9_counterexample :
  items twin_items <> []
  /\ fst (normalizeInvoice E0 (invoice_value twin_items) 0) = Return twin_items
  /\ items (removeItem (js "a") twin_items) = [].
Proof. split; [discriminate|]. split; reflexivity. Qed.

(** The fields of [next] that a patch supplies replace those of [it]. *)
Definition patched_by (patch : ItemPatch) (it next : LineItem) : Prop :=
  id next = match patch_id patch with Some x => x | None => id it end
  /\ description next
     = match patch_description patch with Some x => x | None => description it end
  /\ quantity next = match patch_quantity patch with Some x => x | None => quantity it end
  /\ unitPrice next
     = match patch_unitPrice patch with Some x => x | None => unitPrice it end.

(** C10.  [updateItem(id, patch)] leaves every field of the invoice other
    than [items] unchanged and keeps the number of items; at each
    position, an item whose id differs from [id] is unchanged, and an
    item whose id is [id] has the fields the patch supplies replaced and
    its other fields unchanged. *)
Theorem C10_updateItem_frame (id0 : jsstring) (patch : ItemPatch) (prev : Invoice) :
  let next := updateItem id0 patch prev in
  (fromName next = fromName prev /\ fromAddress next = fromAddress prev
   /\ billToName next = billToName prev /\ billToAddress next = billToAddress prev
   /\ invoiceNumber next = invoiceNumber prev /\ issueDate next = issueDate prev
   /\ dueDate next = dueDate prev /\ currency next = currency prev
   /\ taxRatePct next = taxRatePct prev /\ notes next = notes prev)
  /\ List.length (items next) = List.length (items prev)
  /\ forall i it, nth_error (items prev) i = Some it ->
       exists it', nth_error (items next) i = Some it'
                   /\ (id it <> id0 -> it' = it)
                   /\ (id it = id0 -> patched_by patch it it').
Proof.
  cbv zeta. unfold updateItem. cbn [fromName fromAddress billToName billToAddress
    invoiceNumber issueDate dueDate currency taxRatePct notes items with_items].
  split; [repeat split|]. split; [apply length_map|].
  intros i it Hi. rewrite nth_error_map, Hi. cbn [option_map].
  eexists. split; [reflexivity|]. split.
  - intro Hne. apply jsstring_eqb_neq in Hne. now rewrite Hne.
  - intro Heq. apply jsstring_eqb_eq in Heq. rewrite Heq.
    unfold patched_by, spread_item, or_else. cbn. repeat split.
Qed.

(** The theorem on a patch of the description alone. *)
Lemma C10_updateItem_frame_witness :
  let patch := {| patch_id := None; patch_description := Some (js "z");
                  patch_quantity := None; patch_unitPrice := None |} in
  let prev := twin_items in
  let next := updateItem (js "a") patch prev in
  nth_error (items prev) 1 = Some {| id := js "a"; description := js "y";
                                     quantity := 2; unitPrice := 2 |}
  /\ (fromName next = fromName prev /\ fromAddress next = fromAddress prev
      /\ billToName next = billToName prev /\ billToAddress next = billToAddress prev
      /\ invoiceNumber next = invoiceNumber prev /\ issueDate next = issueDate prev
      /\ dueDate next = dueDate prev /\ currency next = currency prev
      /\ taxRatePct next = taxRatePct prev /\ notes next = notes prev)
  /\ List.length (items next) = List.length (items prev)
  /\ forall i it, nth_error (items prev) i = Some it ->
        exists it', nth_error (items next) i = Some it'
                    /\ (id it <> js "a" -> it' = it)
                    /\ (id it = js "a" -> patched_by patch it it').
Proof.
  cbv zeta. split; [reflexivity|].
  exact (C10_updateItem_frame (js "a")
           {| patch_id := None; patch_description := Some (js "z");
              patch_quantity := None; patch_unitPrice := None |} twin_items).
Defined.

(* ================================================================== *)
(** * Totals                                                           *)
(* ================================================================== *)

Local Open Scope float_scope.



(** [or_zero] changes nothing but NaN and the sign of a zero. *)
Lemma or_zero_number (x : float) :
  is_nan x = false -> is_zero x = false -> or_zero x = x.
Proof. unfold or_zero. now intros -> ->. Qed.

Lemma or_zero_nan : or_zero nan = 0.
Proof. reflexivity. Qed.



(** The end-to-end example of the specification: 1 x 900 and 10 x 90 at
    10 percent. *)
Example totals_example :
  totals example0 = {| subtotal := 1800; tax := 180; total := 1980 |}.
Proof. vm_compute. reflexivity. Qed.

(** The rounding example of the specification: 3 x 0.1. *)
Example line_total_example :
  lineTotal {| id := js "a"; description := []; quantity := 3; unitPrice := 0.1 |} = 0.3.
Proof. vm_compute. reflexivity. Qed.

(* ================================================================== *)
(** * Rounding                                                         *)
(* ================================================================== *)

Lemma all_from_spec (P : Z -> bool) (depth : nat) (lo : Z) :
  all_from P depth lo = true ->
  forall z, (lo <= z < lo + 2 ^ Z.of_nat depth)%Z -> P z = true.
Proof.
  revert lo; induction depth as [|d IH]; intros lo H z Hz.
  - simpl in *. assert (z = lo) by lia. now subst.
  - cbn [all_from] in H. apply andb_true_iff in H as [H1 H2].
    rewrite Nat2Z.inj_succ, Z.pow_succ_r in Hz by lia.
    destruct (Z_lt_le_dec z (lo + 2 ^ Z.of_nat d)) as [Hlt|Hge].
    + apply (IH lo H1). lia.
    + apply (IH _ H2). lia.
Qed.






(** [Math.round] on ties, near ties and large values. *)
Example Math_round_examples :
  Math_round 2.5 = 3 /\ Math_round (-2.5) = -2 /\ Math_round (-0.2) = -0
  /\ Math_round 0.49999999999999994 = 0 /\ Math_round 4503599627370497 = 4503599627370497
  /\ Math_round nan = nan /\ Math_round infinity = infinity.
Proof. repeat split; vm_compute; reflexivity. Qed.




(** The bias added before scaling moves a value just below a tie across
    it: 0.125 - 2^-53 is nearer to 0.12 and is rounded to 0.13. *)
Example round2_bias_below_tie :
  let x := 0.125 - Z.ldexp 1 (-53) in
  (x <? 0.125) = true
  /\ nearest_hundredth AwayFromZero x = 0.12
  /\ round2 x = 0.13.
Proof. repeat split; vm_compute; reflexivity. Qed.

Local Close Scope float_scope.

Local Open Scope js_scope.

(* ================================================================== *)
(** * Base64                                                           *)
(* ================================================================== *)

Ltac Zify.zify_post_hook ::= Z.to_euclidean_division_equations.

Local Open Scope N_scope.

(** Turning the boolean tests of the model into arithmetic. *)
Ltac bool_arith :=
  repeat match goal with
         | H : _ && _ = true |- _ => apply andb_true_iff in H; destruct H
         | H : _ || _ = false |- _ => apply orb_false_iff in H; destruct H
         | H : _ && _ = false |- _ => apply andb_false_iff in H; destruct H
         | H : _ || _ = true |- _ => apply orb_true_iff in H; destruct H
         | H : negb _ = true |- _ => apply negb_true_iff in H
         | H : negb _ = false |- _ => apply negb_false_iff in H
         | H : (_ <=? _) = true |- _ => apply N.leb_le in H
         | H : (_ <=? _) = false |- _ => apply N.leb_gt in H
         | H : (_ <? _) = true |- _ => apply N.ltb_lt in H
         | H : (_ <? _) = false |- _ => apply N.ltb_ge in H
         | H : (_ =? _) = true |- _ => apply N.eqb_eq in H
         | H : (_ =? _) = false |- _ => apply N.eqb_neq in H
         end.

(** Deciding one boolean test of the goal by arithmetic. *)
Ltac decide_test :=
  match goal with
  | |- context [?a <? ?b] =>
      first [ replace (a <? b) with true by (symmetry; apply N.ltb_lt; lia)
            | replace (a <? b) with false by (symmetry; apply N.ltb_ge; lia) ]
  | |- context [?a <=? ?b] =>
      first [ replace (a <=? b) with true by (symmetry; apply N.leb_le; lia)
            | replace (a <=? b) with false by (symmetry; apply N.leb_gt; lia) ]
  | |- context [?a =? ?b] =>
      first [ replace (a =? b) with true by (symmetry; apply N.eqb_eq; lia)
            | replace (a =? b) with false by (symmetry; apply N.eqb_neq; lia) ]
  end.

Ltac decide_tests := repeat (decide_test; cbn [andb orb negb]).

(** Lists are read three bytes at a time. *)
Lemma triples_ind (P : list N -> Prop) :
  P [] -> (forall a, P [a]) -> (forall a b, P [a; b]) ->
  (forall a b c rest, P rest -> P (a :: b :: c :: rest)) ->
  forall l, P l.
Proof.
  intros H0 H1 H2 H3 l.
  assert (H : P l /\ (forall a, P (a :: l)) /\ (forall a b, P (a :: b :: l))).
  { induction l as [|x l [IH0 [IH1 IH2]]]; [auto|].
    repeat split; auto. }
  apply H.
Qed.

(** The 6-bit groups of a byte sequence. *)
Fixpoint b64_groups (bytes : list N) : list N :=
  match bytes with
  | [] => []
  | [a] => [a / 4; (a mod 4) * 16]
  | [a; b] => [a / 4; (a mod 4) * 16 + b / 16; (b mod 16) * 4]
  | a :: b :: c :: rest =>
      a / 4 :: (a mod 4) * 16 + b / 16 :: (b mod 16) * 4 + c / 64 :: c mod 64
        :: b64_groups rest
  end.

(** The padding that completes [g] characters to a multiple of four, as
    [base64UrlDecodeUtf8] computes it. *)
Definition padding (g : nat) : jsstring :=
  slice (N.to_nat ((N.of_nat g + 3) mod 4)) (js "===").

Lemma padding_plus4 (g : nat) : padding (4 + g) = padding g.
Proof.
  unfold padding. f_equal. f_equal.
  rewrite Nat2N.inj_add. change (N.of_nat 4) with 4. lia.
Qed.

Lemma b64_encode_groups (bytes : list N) :
  b64_encode bytes
  = map b64_char (b64_groups bytes) ++ padding (List.length (b64_groups bytes)).
Proof.
  induction bytes as [|a|a b|a b c rest IH] using triples_ind; try reflexivity.
  cbn [b64_encode b64_groups map List.length app].
  rewrite IH. change (S (S (S (S ?n)))) with (4 + n)%nat.
  now rewrite padding_plus4.
Qed.

Lemma b64_groups_bound (bytes : list N) :
  Forall (fun b => b < 256) bytes -> Forall (fun g => g < 64) (b64_groups bytes).
Proof.
  induction bytes as [|a|a b|a b c rest IH] using triples_ind; intro H;
    cbn [b64_groups];
    repeat match goal with
           | H : Forall _ (_ :: _) |- _ => apply Forall_cons_iff in H; destruct H
           end;
    repeat (apply Forall_cons; [lia|]); auto.
Qed.

Lemma b64_decode_groups (bytes : list N) :
  Forall (fun b => b < 256) bytes -> b64_decode (b64_groups bytes) = bytes.
Proof.
  induction bytes as [|a|a b|a b c rest IH] using triples_ind; intro H;
    cbn [b64_groups b64_decode];
    repeat match goal with
           | H : Forall _ (_ :: _) |- _ => apply Forall_cons_iff in H; destruct H
           end.
  - reflexivity.
  - f_equal. lia.
  - f_equal; [lia|]. f_equal. lia.
  - rewrite IH by assumption. f_equal; [lia|]. f_equal; [lia|]. f_equal. lia.
Qed.

Lemma b64_groups_length (bytes : list N) :
  N.of_nat (List.length (b64_groups bytes)) mod 4 <> 1.
Proof.
  induction bytes as [|a|a b|a b c rest IH] using triples_ind;
    cbn [b64_groups List.length]; try (vm_compute; discriminate).
  change (S (S (S (S ?n)))) with (4 + n)%nat.
  rewrite Nat2N.inj_add. change (N.of_nat 4) with 4.
  intro H. apply IH. lia.
Qed.

(** ** One character at a time *)

(** The URL-safe form of a character of the alphabet. *)
Definition url_char (c : N) : N := if c =? 43 then 45 else if c =? 47 then 95 else c.

Definition is_b64_char (c : N) : bool :=
  match b64_index c with Some _ => true | None => false end.

Lemma b64_index_char (i : N) : i < 64 -> b64_index (b64_char i) = Some i.
Proof.
  intro H. unfold b64_char, b64_index, in_range.
  destruct (i <? 26) eqn:H1; [|destruct (i <? 52) eqn:H2; [|destruct (i <? 62) eqn:H3;
    [|destruct (i =? 62) eqn:H4]]]; bool_arith; decide_tests; f_equal; lia.
Qed.

Lemma b64_index_range (c i : N) :
  b64_index c = Some i ->
  c <> 61 /\ c <> 45 /\ c <> 95 /\ is_ascii_whitespace c = false /\ c < 128.
Proof.
  unfold b64_index, in_range, is_ascii_whitespace. intro H.
  destruct (_ && _) eqn:H1 in H;
    [|destruct (_ && _) eqn:H2 in H;
      [|destruct (_ && _) eqn:H3 in H;
        [|destruct (c =? 43) eqn:H4;
          [|destruct (c =? 47) eqn:H5; [|discriminate]]]]];
    bool_arith; repeat split; try lia; decide_tests; reflexivity.
Qed.

Lemma b64_chars (groups : list N) :
  Forall (fun g => g < 64) groups ->
  Forall (fun c => is_b64_char c = true) (map b64_char groups).
Proof.
  intro H. apply Forall_map. eapply Forall_impl; [|exact H].
  intros g Hg. unfold is_b64_char. cbv beta. now rewrite b64_index_char.
Qed.

Lemma indices_chars (groups : list N) :
  Forall (fun g => g < 64) groups -> indices (map b64_char groups) = Some groups.
Proof.
  induction 1 as [|g l Hg _ IH]; [reflexivity|].
  cbn [map indices]. now rewrite b64_index_char, IH.
Qed.


(** ** The substitutions of the URL-safe form *)

Lemma replaceAll_app (p : N) (r a b : jsstring) :
  replaceAll p r (a ++ b) = replaceAll p r a ++ replaceAll p r b.
Proof. apply flat_map_app. Qed.

Lemma replaceAll_map (p q : N) (s : jsstring) :
  replaceAll p [q] s = map (fun c => if c =? p then q else c) s.
Proof.
  induction s as [|c s IH]; [reflexivity|].
  cbn [replaceAll flat_map map]. fold (replaceAll p [q] s). rewrite IH.
  now destruct (c =? p).
Qed.

Lemma replaceAll_absent (p : N) (r s : jsstring) :
  Forall (fun c => c <> p) s -> replaceAll p r s = s.
Proof.
  induction 1 as [|c s Hc _ IH]; [reflexivity|].
  cbn [replaceAll flat_map]. fold (replaceAll p r s). rewrite IH.
  apply N.eqb_neq in Hc. now rewrite Hc.
Qed.

Lemma padding_erased (g : nat) : replaceAll 61 [] (padding g) = [].
Proof.
  unfold padding.
  assert (H : (N.of_nat g + 3) mod 4 < 4) by lia.
  destruct ((N.of_nat g + 3) mod 4) as [|[[|[]|]|[|[]|]|]]; try reflexivity; lia.
Qed.

Lemma padding_fixed (g : nat) :
  replaceAll 47 (js "_") (replaceAll 43 (js "-") (padding g)) = padding g.
Proof.
  unfold padding.
  assert (H : (N.of_nat g + 3) mod 4 < 4) by lia.
  destruct ((N.of_nat g + 3) mod 4) as [|[[|[]|]|[|[]|]|]]; try reflexivity; lia.
Qed.

(** The token of a byte sequence: the alphabet characters in URL-safe
    form, without padding. *)
Lemma url_safe_form (body : jsstring) (g : nat) :
  Forall (fun c => is_b64_char c = true) body ->
  replaceAll 61 [] (replaceAll 47 (js "_") (replaceAll 43 (js "-") (body ++ padding g)))
  = map url_char body.
Proof.
  intro H. rewrite !replaceAll_app, padding_fixed, padding_erased, app_nil_r.
  change (js "-") with [45]. change (js "_") with [95]. rewrite !replaceAll_map, map_map.
  rewrite replaceAll_absent.
  - apply map_ext. intro c. unfold url_char. destruct (c =? 43) eqn:H1; [reflexivity|].
    reflexivity.
  - apply Forall_map. eapply Forall_impl; [|exact H]. intros c Hc. cbv beta.
    unfold is_b64_char in Hc. destruct (b64_index c) as [i|] eqn:Hi; [|discriminate].
    apply b64_index_range in Hi.
    destruct (c =? 43) eqn:H1; [discriminate|]. destruct (c =? 47) eqn:H2; [discriminate|].
    tauto.
Qed.

Lemma url_safe_form_back (body : jsstring) :
  Forall (fun c => is_b64_char c = true) body ->
  replaceAll 95 (js "/") (replaceAll 45 (js "+") (map url_char body)) = body.
Proof.
  intro H. change (js "+") with [43]. change (js "/") with [47].
  rewrite !replaceAll_map, !map_map. rewrite <- (map_id body) at 2.
  apply map_ext_in. intros c Hc. rewrite Forall_forall in H. specialize (H c Hc).
  unfold is_b64_char in H. destruct (b64_index c) as [i|] eqn:Hi; [|discriminate].
  apply b64_index_range in Hi. unfold url_char.
  destruct (c =? 43) eqn:H1; [bool_arith; subst; reflexivity|].
  destruct (c =? 47) eqn:H2; [bool_arith; subst; reflexivity|].
  bool_arith. decide_tests. reflexivity.
Qed.

(** ** [atob] after [btoa] *)

Lemma filter_all {A} (f : A -> bool) (l : list A) :
  Forall (fun x => f x = true) l -> filter f l = l.
Proof.
  induction 1 as [|x l Hx _ IH]; [reflexivity|]. cbn. now rewrite Hx, IH.
Qed.

Lemma not_padding_head {A} (c : N) (r : jsstring) (x y : jsstring -> A) (z : A) :
  c <> 61 ->
  match c :: r with
  | 61 :: 61 :: r' => x r'
  | 61 :: r' => y r'
  | _ => z
  end = z.
Proof.
  intro H. destruct c as [|p]; [reflexivity|].
  do 6 (try (destruct p as [p|p|]; try reflexivity)).
  exfalso. now apply H.
Qed.

Lemma strip_padding_encoded (body : jsstring) :
  Forall (fun c => is_b64_char c = true) body ->
  N.of_nat (List.length body) mod 4 <> 1 ->
  strip_padding (body ++ padding (List.length body)) = body.
Proof.
  intros H Hlen. unfold strip_padding, padding.
  assert (Hlast : match rev body with c :: _ => c <> 61 | [] => True end).
  { apply Forall_rev in H. destruct (rev body) as [|c r]; [exact I|].
    apply Forall_inv in H. unfold is_b64_char in H.
    destruct (b64_index c) eqn:Hi; [|discriminate]. now apply b64_index_range in Hi. }
  rewrite length_app.
  assert (Hm : (N.of_nat (List.length body) + 3) mod 4 < 4) by lia.
  revert Hlen Hm. generalize (List.length body) as g. intros g Hlen Hm.
  destruct ((N.of_nat g + 3) mod 4) as [|[[|[]|]|[|[]|]|]] eqn:Hk; try lia;
    [ change (slice (N.to_nat 3) (js "===")) with (@nil N)
    | change (slice (N.to_nat 2) (js "===")) with [61]
    | change (slice (N.to_nat 1) (js "===")) with [61; 61] ];
    cbn [List.length]; rewrite Nat2N.inj_add.
  - (* no padding *)
    rewrite app_nil_r. destruct (_ =? 0); [|reflexivity].
    destruct (rev body) as [|c r] eqn:Hr; [reflexivity|].
    now apply not_padding_head.
  - (* one character of padding *)
    replace ((N.of_nat g + N.of_nat 1) mod 4 =? 0) with true
      by (symmetry; apply N.eqb_eq; change (N.of_nat 1) with 1; lia).
    rewrite rev_app_distr. cbn [rev app].
    destruct (rev body) as [|c r] eqn:Hr.
    + apply (f_equal (@rev N)) in Hr. rewrite rev_involutive in Hr. now subst.
    + rewrite <- (rev_involutive body), Hr. destruct c as [|p]; [reflexivity|].
      do 6 (try (destruct p as [p|p|]; try reflexivity)).
      exfalso. now apply Hlast.
  - (* two characters of padding *)
    replace ((N.of_nat g + N.of_nat 2) mod 4 =? 0) with true
      by (symmetry; apply N.eqb_eq; change (N.of_nat 2) with 2; lia).
    rewrite rev_app_distr. cbn [rev app]. apply rev_involutive.
Qed.

Lemma atob_encoded (bytes : list N) (n : nat) :
  Forall (fun b => b < 256) bytes ->
  atob (b64_encode bytes) n = (Return bytes, n).
Proof.
  intro H. pose proof (b64_groups_bound bytes H) as Hg.
  pose proof (b64_chars _ Hg) as Hc.
  unfold atob. rewrite b64_encode_groups.
  rewrite filter_all.
  - rewrite <- (length_map b64_char (b64_groups bytes)).
    rewrite strip_padding_encoded; [|exact Hc|rewrite length_map; apply b64_groups_length].
    rewrite length_map.
    replace (N.of_nat (List.length (b64_groups bytes)) mod 4 =? 1) with false
      by (symmetry; apply N.eqb_neq, b64_groups_length).
    rewrite indices_chars by assumption. now rewrite b64_decode_groups.
  - apply Forall_app. split.
    + eapply Forall_impl; [|exact Hc]. intros c Hb. cbv beta. unfold is_b64_char in Hb.
      destruct (b64_index c) eqn:Hi; [|discriminate]. apply b64_index_range in Hi.
      destruct Hi as (_ & _ & _ & Hw & _). now rewrite Hw.
    + unfold padding. generalize (List.length (b64_groups bytes)) as g. intro g.
      assert (Hm : (N.of_nat g + 3) mod 4 < 4) by lia.
      destruct ((N.of_nat g + 3) mod 4) as [|[[|[]|]|[|[]|]|]]; try lia;
        repeat constructor.
Qed.

(** ** The codec on a text already encoded as bytes *)

Lemma fold_left_snoc (bytes acc : list N) :
  fold_left (fun binary b => binary ++ [b]) bytes acc = acc ++ bytes.
Proof.
  revert acc; induction bytes as [|b l IH]; intro acc; cbn; [now rewrite app_nil_r|].
  now rewrite IH, <- app_assoc.
Qed.

Lemma forallb_bytes (bytes : list N) :
  Forall (fun b => b < 256) bytes -> forallb (fun c => c <? 256) bytes = true.
Proof.
  intro H. apply forallb_forall. rewrite Forall_forall in H.
  intros b Hb. apply N.ltb_lt. auto.
Qed.

Lemma map_mod_bytes (bytes : list N) :
  Forall (fun b => b < 256) bytes -> map (fun c => c mod 256) bytes = bytes.
Proof.
  intro H. rewrite <- (map_id bytes) at 2. apply map_ext_in.
  rewrite Forall_forall in H. intros b Hb. apply N.mod_small. auto.
Qed.

(** The token of a text is never empty unless the text is, and decoding
    it gives the bytes back through [TextDecoder]. *)
Lemma base64Url_roundtrip (text : jsstring) (n : nat) :
  Forall (fun b => b < 256) (TextEncoder_encode text) ->
  exists token,
    base64UrlEncodeUtf8 text n = (Return token, n)
    /\ List.length token = List.length (b64_groups (TextEncoder_encode text))
    /\ base64UrlDecodeUtf8 token n
       = (Return (TextDecoder_decode (TextEncoder_encode text)), n).
Proof.
  intro H. pose proof (b64_groups_bound _ H) as Hg. pose proof (b64_chars _ Hg) as Hc.
  exists (map url_char (map b64_char (b64_groups (TextEncoder_encode text)))).
  unfold base64UrlEncodeUtf8, base64UrlDecodeUtf8.
  rewrite fold_left_snoc. cbn [app]. unfold btoa. rewrite (forallb_bytes _ H).
  rewrite bind_ret. rewrite b64_encode_groups, url_safe_form by assumption.
  split; [reflexivity|]. split; [now rewrite !length_map|].
  rewrite url_safe_form_back by assumption. rewrite !length_map.
  fold (padding (List.length (b64_groups (TextEncoder_encode text)))).
  rewrite <- b64_encode_groups. unfold bind. rewrite atob_encoded by assumption.
  now rewrite map_mod_bytes.
Qed.

(* ================================================================== *)
(** * UTF-8 and UTF-16                                                 *)
(* ================================================================== *)

(** A Unicode scalar value. *)
Definition is_scalar (cp : N) : Prop := cp < 55296 \/ 57344 <= cp < 1114112.

Lemma utf8_bytes_bound (cp : N) : is_scalar cp -> Forall (fun b => b < 256) (utf8_bytes cp).
Proof.
  intro H. unfold utf8_bytes, is_scalar in *.
  destruct (cp <? 128) eqn:H1; [|destruct (cp <? 2048) eqn:H2; [|destruct (cp <? 65536) eqn:H3]];
    bool_arith; repeat (apply Forall_cons; [lia|]); constructor.
Qed.

Lemma utf8_decode_bytes (cp : N) (rest : list N) :
  is_scalar cp -> utf8_decode (utf8_bytes cp ++ rest) = cp :: utf8_decode rest.
Proof.
  intro H. unfold utf8_bytes, is_scalar in *.
  destruct (cp <? 128) eqn:H1; [|destruct (cp <? 2048) eqn:H2; [|destruct (cp <? 65536) eqn:H3]];
    bool_arith; cbn [app utf8_decode]; unfold in_range, is_cont, in_range;
    decide_tests;
    repeat match goal with
           | |- context [if ?a =? ?b then _ else _] =>
               destruct (a =? b) eqn:?; bool_arith; decide_tests
           end;
    f_equal; lia.
Qed.

Lemma utf8_roundtrip (cps : list N) :
  Forall is_scalar cps -> utf8_decode (flat_map utf8_bytes cps) = cps.
Proof.
  induction 1 as [|cp l Hcp _ IH]; [reflexivity|].
  cbn [flat_map]. now rewrite utf8_decode_bytes, IH.
Qed.

Lemma utf8_bound (cps : list N) :
  Forall is_scalar cps -> Forall (fun b => b < 256) (flat_map utf8_bytes cps).
Proof.
  induction 1 as [|cp l Hcp _ IH]; [constructor|].
  cbn [flat_map]. apply Forall_app. split; [now apply utf8_bytes_bound | exact IH].
Qed.

(** A string in which every surrogate is half of a pair. *)
Fixpoint well_formed (s : jsstring) : bool :=
  match s with
  | [] => true
  | u :: rest =>
      if is_high_surrogate u then
        match rest with
        | l :: rest' => is_low_surrogate l && well_formed rest'
        | [] => false
        end
      else negb (is_low_surrogate u) && (u <? 65536) && well_formed rest
  end.

(** Strings are read one code unit, or one pair, at a time. *)
Lemma units_ind (P : jsstring -> Prop) :
  P [] ->
  (forall u, P [u]) ->
  (forall u l rest, P rest -> P (l :: rest) -> P (u :: l :: rest)) ->
  forall s, P s.
Proof.
  intros H0 H1 H2 s.
  assert (H : P s /\ forall u, P (u :: s)).
  { induction s as [|x s [IHa IHb]]; [split; auto|]. split; auto. }
  apply H.
Qed.

Ltac surrogate_arith :=
  unfold is_high_surrogate, is_low_surrogate, utf16_units, is_scalar in *; bool_arith.

Lemma scalar_values_eq (u : N) (rest : jsstring) :
  scalar_values (u :: rest)
  = if is_high_surrogate u then
      match rest with
      | l :: rest' =>
          if is_low_surrogate l
          then (65536 + (u - 55296) * 1024 + (l - 56320)) :: scalar_values rest'
          else 65533 :: scalar_values rest
      | [] => [65533]
      end
    else if is_low_surrogate u then 65533 :: scalar_values rest
    else u :: scalar_values rest.
Proof. reflexivity. Qed.

Lemma well_formed_eq (u : N) (rest : jsstring) :
  well_formed (u :: rest)
  = if is_high_surrogate u then
      match rest with
      | l :: rest' => is_low_surrogate l && well_formed rest'
      | [] => false
      end
    else negb (is_low_surrogate u) && (u <? 65536) && well_formed rest.
Proof. reflexivity. Qed.

Lemma scalar_values_units (s : jsstring) :
  well_formed s = true ->
  flat_map utf16_units (scalar_values s) = s /\ Forall is_scalar (scalar_values s).
Proof.
  induction s as [|u|u l rest IH IH'] using units_ind; intro H.
  - split; [reflexivity|constructor].
  - rewrite well_formed_eq in H. rewrite scalar_values_eq.
    destruct (is_high_surrogate u) eqn:Hh; [discriminate|].
    rewrite andb_true_r in H. apply andb_true_iff in H as [Hl Hu].
    apply negb_true_iff in Hl. rewrite Hl. cbn [flat_map app scalar_values].
    surrogate_arith; decide_tests; (split; [reflexivity|]);
      repeat constructor; lia.
  - rewrite well_formed_eq in H. rewrite scalar_values_eq.
    destruct (is_high_surrogate u) eqn:Hh.
    + apply andb_true_iff in H as [Hl H]. rewrite Hl.
      destruct (IH H) as [IHa IHb]. cbn [flat_map]. rewrite IHa.
      surrogate_arith; decide_tests; cbn [app];
        (split; [f_equal; [lia|]; f_equal; lia | constructor; [lia|exact IHb]]).
    + apply andb_true_iff in H as [H Hw]. apply andb_true_iff in H as [Hl Hu].
      apply negb_true_iff in Hl. rewrite Hl.
      destruct (IH' Hw) as [IHa IHb]. cbn [flat_map]. rewrite IHa.
      surrogate_arith; decide_tests; cbn [app];
        (split; [reflexivity | constructor; [lia|exact IHb]]).
Qed.

Lemma well_formed_app (a b : jsstring) :
  well_formed a = true -> well_formed b = true -> well_formed (a ++ b) = true.
Proof.
  intros Ha Hb. induction a as [|u|u l rest IH IH'] using units_ind.
  - exact Hb.
  - cbn [app]. rewrite well_formed_eq in *. destruct (is_high_surrogate u); [discriminate|].
    rewrite andb_true_r in Ha. now rewrite Ha.
  - change ((u :: l :: rest) ++ b) with (u :: (l :: rest) ++ b).
    rewrite well_formed_eq in *. destruct (is_high_surrogate u).
    + cbn [app]. apply andb_true_iff in Ha as [Hl Ha]. rewrite Hl. cbn [andb]. now apply IH.
    + apply andb_true_iff in Ha as [H Hw]. rewrite H. cbn [andb]. now apply IH'.
Qed.

Lemma well_formed_cons (c : N) (s : jsstring) :
  c < 55296 -> well_formed s = true -> well_formed (c :: s) = true.
Proof.
  intros Hc Hs. rewrite well_formed_eq. surrogate_arith; decide_tests; exact Hs.
Qed.

(** A text without surrogates is well formed. *)
Lemma well_formed_plain (s : jsstring) :
  Forall (fun c => c < 55296) s -> well_formed s = true.
Proof.
  induction 1 as [|c s Hc _ IH]; [reflexivity|]. now apply well_formed_cons.
Qed.

(** [TextDecoder] after [TextEncoder], on a well-formed text that does
    not start with a byte order mark. *)
Lemma TextDecoder_TextEncoder (text : jsstring) :
  well_formed text = true ->
  hd 0 text <> 65279 ->
  TextDecoder_decode (TextEncoder_encode text) = text
  /\ Forall (fun b => b < 256) (TextEncoder_encode text).
Proof.
  intros Hw Hb. destruct (scalar_values_units text Hw) as [Hu Hs].
  unfold TextDecoder_decode, TextEncoder_encode. split; [|now apply utf8_bound].
  rewrite utf8_roundtrip by assumption.
  replace (strip_bom (scalar_values text)) with (scalar_values text); [exact Hu|].
  destruct text as [|u rest]; [reflexivity|]. cbn [hd] in Hb.
  rewrite well_formed_eq in Hw. rewrite scalar_values_eq.
  destruct (is_high_surrogate u) eqn:Hh.
  - destruct rest as [|l rest']; [discriminate|].
    apply andb_true_iff in Hw as [Hl _]. rewrite Hl. cbn [strip_bom].
    surrogate_arith; decide_tests; reflexivity.
  - destruct (is_low_surrogate u); cbn [strip_bom];
      [reflexivity|]. apply N.eqb_neq in Hb. now rewrite Hb.
Qed.

(* ================================================================== *)
(** * JSON strings                                                     *)
(* ================================================================== *)

Lemma hex_value_digit (d : N) : d < 16 -> hex_value (hex_digit d) = Some d.
Proof.
  intro H. unfold hex_value, hex_digit, in_range.
  destruct (d <? 10) eqn:Hd; bool_arith; decide_tests; f_equal; lia.
Qed.

Lemma hex_digit_ascii (d : N) : d < 16 -> hex_digit d < 128.
Proof. intro H. unfold hex_digit. destruct (d <? 10); lia. Qed.

Lemma parse_chars_escape (u : N) (rest : jsstring) :
  u < 65536 ->
  parse_chars (unicode_escape u ++ rest) = prepend u (parse_chars rest).
Proof.
  intro H. unfold unicode_escape. cbn [app parse_chars N.eqb Pos.eqb].
  rewrite !hex_value_digit by lia. f_equal. lia.
Qed.

Lemma parse_chars_literal (u : N) (rest : jsstring) :
  u <> 34 -> u <> 92 -> 32 <= u ->
  parse_chars (u :: rest) = prepend u (parse_chars rest).
Proof.
  intros H1 H2 H3. cbn [parse_chars]. decide_tests. reflexivity.
Qed.

Lemma parse_chars_unit (u : N) (rest : jsstring) :
  parse_chars (quote_unit u ++ rest) = prepend u (parse_chars rest).
Proof.
  unfold quote_unit.
  repeat match goal with
         | |- context [if ?a =? ?b then _ else _] =>
             destruct (a =? b) eqn:?; [bool_arith; subst; reflexivity|]
         end.
  destruct (u <? 32) eqn:Hu; bool_arith.
  - apply parse_chars_escape. lia.
  - cbn [app]. now apply parse_chars_literal.
Qed.

Lemma quote_body_eq (u : N) (rest : jsstring) :
  quote_body (u :: rest)
  = if is_high_surrogate u then
      match rest with
      | l :: rest' =>
          if is_low_surrogate l then u :: l :: quote_body rest'
          else unicode_escape u ++ quote_body rest
      | [] => unicode_escape u
      end
    else if is_low_surrogate u then unicode_escape u ++ quote_body rest
    else quote_unit u ++ quote_body rest.
Proof. reflexivity. Qed.

Lemma is_jsstring_b (s : jsstring) : is_jsstringb s = true <-> is_jsstring s.
Proof.
  unfold is_jsstringb, is_jsstring. rewrite forallb_forall, Forall_forall.
  split; intros H u Hu; apply N.ltb_lt; auto.
Qed.

(** Reading a quoted string back. *)
Lemma parse_chars_quote (s rest : jsstring) :
  is_jsstring s -> parse_chars (quote_body s ++ 34 :: rest) = Some (s, rest).
Proof.
  induction s as [|u|u l s IH IH'] using units_ind; intro H.
  - reflexivity.
  - apply Forall_inv in H. rewrite quote_body_eq.
    destruct (is_high_surrogate u); [|destruct (is_low_surrogate u)];
      rewrite ?app_nil_r; cbn [quote_body];
      rewrite ?app_nil_r, ?parse_chars_escape, ?parse_chars_unit by assumption;
      reflexivity.
  - pose proof (Forall_inv H) as Hu. apply Forall_inv_tail in H.
    pose proof (Forall_inv H) as Hl. pose proof (Forall_inv_tail H) as Hs.
    rewrite quote_body_eq.
    destruct (is_high_surrogate u) eqn:Hh; [destruct (is_low_surrogate l) eqn:Hw|].
    + cbn [app]. rewrite parse_chars_literal by (surrogate_arith; lia).
      rewrite parse_chars_literal by (surrogate_arith; lia).
      now rewrite IH.
    + rewrite <- app_assoc, parse_chars_escape, IH' by assumption. reflexivity.
    + destruct (is_low_surrogate u);
        rewrite <- app_assoc, ?parse_chars_escape, ?parse_chars_unit, IH' by assumption;
        reflexivity.
Qed.

Lemma unicode_escape_plain (u : N) :
  u < 65536 -> Forall (fun c => c < 55296) (unicode_escape u).
Proof.
  intro H. unfold unicode_escape.
  repeat apply Forall_cons; try apply Forall_nil; try lia;
    (apply N.lt_trans with 128; [apply hex_digit_ascii; lia | lia]).
Qed.

Lemma well_formed_unit (u : N) :
  is_high_surrogate u = false -> is_low_surrogate u = false -> u < 65536 ->
  well_formed (quote_unit u) = true.
Proof.
  intros Hh Hl Hu. unfold quote_unit.
  repeat match goal with
         | |- context [if ?a =? ?b then _ else _] =>
             destruct (a =? b) eqn:?; [reflexivity|]
         end.
  destruct (u <? 32).
  - now apply well_formed_plain, unicode_escape_plain.
  - rewrite well_formed_eq, Hh, Hl. cbn [negb andb well_formed].
    rewrite andb_true_r. now apply N.ltb_lt.
Qed.

Lemma well_formed_quote_body (s : jsstring) :
  is_jsstring s -> well_formed (quote_body s) = true.
Proof.
  induction s as [|u|u l s IH IH'] using units_ind; intro H.
  - reflexivity.
  - apply Forall_inv in H. rewrite quote_body_eq.
    destruct (is_high_surrogate u) eqn:Hh; [|destruct (is_low_surrogate u) eqn:Hl];
      cbn [quote_body]; rewrite ?app_nil_r;
      try (now apply well_formed_plain, unicode_escape_plain).
    now apply well_formed_unit.
  - pose proof (Forall_inv H) as Hu. apply Forall_inv_tail in H.
    pose proof (Forall_inv H) as Hl. pose proof (Forall_inv_tail H) as Hs.
    rewrite quote_body_eq.
    destruct (is_high_surrogate u) eqn:Hh; [destruct (is_low_surrogate l) eqn:Hw|].
    + rewrite well_formed_eq, Hh, Hw. cbn [andb]. now apply IH.
    + apply well_formed_app; [now apply well_formed_plain, unicode_escape_plain | now apply IH'].
    + destruct (is_low_surrogate u) eqn:Hlo; apply well_formed_app;
        try (now apply IH');
        [now apply well_formed_plain, unicode_escape_plain | now apply well_formed_unit].
Qed.

Lemma well_formed_quote (s : jsstring) :
  is_jsstring s -> well_formed (QuoteJSONString s) = true.
Proof.
  intro H. unfold QuoteJSONString. apply well_formed_cons; [lia|].
  apply well_formed_app; [now apply well_formed_quote_body | reflexivity].
Qed.

(* ================================================================== *)
(** * JSON numbers                                                     *)
(* ================================================================== *)

(** A number [JSON.stringify] prints as a number and [JSON.parse] reads
    back as the same number.  ECMAScript's [Number::toString] is made so
    that this holds of every finite number but [-0] (printed [0]); here
    it is checked of a given number by evaluation. *)
Definition number_ok (x : float) : Prop :=
  is_finite x = true
  /\ forallb is_number_char (Number_toString x) = true
  /\ number_of_token (Number_toString x) = Some x.

(** Where a number token ends. *)
Definition number_stop (rest : jsstring) : Prop :=
  match rest with
  | [] => True
  | c :: _ => is_number_char c = false
  end.

Lemma span_number_token (tok rest : jsstring) :
  forallb is_number_char tok = true -> number_stop rest ->
  span_number (tok ++ rest) = (tok, rest).
Proof.
  intros Ht Hr. induction tok as [|c tok IH].
  - destruct rest as [|c r]; [reflexivity|]. cbn in *. now rewrite Hr.
  - cbn [forallb] in Ht. apply andb_true_iff in Ht as [Hc Ht].
    cbn [app span_number]. now rewrite Hc, IH.
Qed.

Lemma is_number_char_range (c : N) :
  is_number_char c = true ->
  c < 128 /\ c <> 123 /\ c <> 91 /\ c <> 34 /\ c <> 93 /\ c <> 125
  /\ is_json_whitespace c = false.
Proof.
  unfold is_number_char, is_digit, in_range, is_json_whitespace. intro H.
  bool_arith; repeat split; try lia; decide_tests; reflexivity.
Qed.

Lemma number_token_nonempty (x : float) :
  number_ok x -> exists c tok, Number_toString x = c :: tok /\ is_number_char c = true.
Proof.
  intros (_ & Hc & Ht). destruct (Number_toString x) as [|c tok]; [discriminate|].
  exists c, tok. split; [reflexivity|]. cbn in Hc. now apply andb_true_iff in Hc.
Qed.

(* ================================================================== *)
(** * [JSON.parse] after [JSON.stringify]                              *)
(* ================================================================== *)

(** Induction on values, with the hypothesis on every element and on
    every property value. *)
Section ValueInduction.

Variable P : value -> Prop.
Hypothesis P_undefined : P Undefined.
Hypothesis P_null : P Null.
Hypothesis P_bool : forall b, P (Bool b).
Hypothesis P_num : forall x, P (Num x).
Hypothesis P_str : forall s, P (Str s).
Hypothesis P_arr : forall elems, Forall P elems -> P (Arr elems).
Hypothesis P_obj : forall props, Forall (fun kv => P (snd kv)) props -> P (Obj props).

Fixpoint value_nested_ind (v : value) : P v :=
  match v with
  | Undefined => P_undefined
  | Null => P_null
  | Bool b => P_bool b
  | Num x => P_num x
  | Str s => P_str s
  | Arr elems =>
      P_arr elems
        ((fix all (l : list value) : Forall P l :=
            match l with
            | [] => Forall_nil P
            | e :: l' => Forall_cons e (value_nested_ind e) (all l')
            end) elems)
  | Obj props =>
      P_obj props
        ((fix all (l : list (jsstring * value)) : Forall (fun kv => P (snd kv)) l :=
            match l with
            | [] => Forall_nil _
            | kv :: l' => Forall_cons kv (value_nested_ind (snd kv)) (all l')
            end) props)
  end.

End ValueInduction.

(** The values [JSON.stringify] prints and [JSON.parse] reads back
    unchanged: no [undefined], numbers that are [number_ok], strings of
    16-bit code units, objects whose keys are distinct. *)
Inductive json_safe : value -> Prop :=
| safe_null : json_safe Null
| safe_bool (b : bool) : json_safe (Bool b)
| safe_num (x : float) : number_ok x -> json_safe (Num x)
| safe_str (s : jsstring) : is_jsstring s -> json_safe (Str s)
| safe_arr (elems : list value) : Forall json_safe elems -> json_safe (Arr elems)
| safe_obj (props : list (jsstring * value)) :
    Forall (fun kv => is_jsstring (fst kv) /\ json_safe (snd kv)) props ->
    NoDup (map fst props) ->
    json_safe (Obj props).

(** The text [t] of the value [v]: well formed, starting with a
    character that is neither whitespace, a closing bracket nor a byte
    order mark, and read back as [v] by a parser with fuel above its
    length, whatever follows that cannot continue a number. *)
Definition reads_back_as (v : value) (t : jsstring) : Prop :=
  well_formed t = true
  /\ (exists c t', t = c :: t' /\ is_json_whitespace c = false
                   /\ c <> 93 /\ c <> 125 /\ c <> 65279)
  /\ forall fuel rest,
       (List.length t < fuel)%nat -> number_stop rest ->
       parse_value fuel (t ++ rest) = Some (v, rest).

Definition has_text (v : value) : Prop :=
  exists t, stringify v = Some t /\ reads_back_as v t.

(** The text of an element of an array. *)
Definition element_text (e : value) : jsstring :=
  match stringify e with Some t => t | None => js "null" end.

(** The text of a member of an object. *)
Definition member_text (kv : jsstring * value) : jsstring :=
  QuoteJSONString (fst kv) ++ 58 :: element_text (snd kv).

Lemma skip_ws_not_ws (c : N) (s : jsstring) :
  is_json_whitespace c = false -> skip_ws (c :: s) = c :: s.
Proof. intro H. cbn [skip_ws]. now rewrite H. Qed.

Lemma join_comma_cons2 (p q : jsstring) (r : list jsstring) :
  join_comma (p :: q :: r) = p ++ 44 :: join_comma (q :: r).
Proof. reflexivity. Qed.

Lemma parse_elements_eq (fuel : nat) (s : jsstring) :
  parse_elements (S fuel) s
  = match parse_value fuel s with
    | Some (v, rest) =>
        match skip_ws rest with
        | c :: rest' =>
            if c =? 44 then
              match parse_elements fuel rest' with
              | Some (vs, rest'') => Some (v :: vs, rest'')
              | None => None
              end
            else if c =? 93 then Some ([v], rest')
            else None
        | [] => None
        end
    | None => None
    end.
Proof. reflexivity. Qed.

Lemma has_text_element (e : value) :
  has_text e -> reads_back_as e (element_text e).
Proof. intros (t & Ht & H). unfold element_text. now rewrite Ht. Qed.

(** The elements of a non-empty array. *)
Lemma parse_elements_texts (elems : list value) :
  Forall has_text elems -> elems <> [] ->
  let text := join_comma (map element_text elems) in
  well_formed text = true
  /\ (exists c t', text = c :: t' /\ is_json_whitespace c = false
                   /\ c <> 93 /\ c <> 125 /\ c <> 65279)
  /\ forall fuel rest,
       (List.length text + 1 < fuel)%nat ->
       parse_elements fuel (text ++ 93 :: rest) = Some (elems, rest).
Proof.
  intros H Hne. cbv zeta. induction H as [|e l He Hl IH]; [contradiction|]. clear Hne.
  apply has_text_element in He. destruct He as (Hw & (c & t' & Ht & Hc) & Hp).
  destruct l as [|e2 l].
  - cbn [map join_comma]. split; [exact Hw|]. split; [now exists c, t'|].
    intros [|fuel] rest Hf; [lia|]. rewrite parse_elements_eq.
    rewrite Hp; [reflexivity|lia|reflexivity].
  - assert (Hne : e2 :: l <> []) by discriminate. specialize (IH Hne). clear Hne.
    destruct IH as (IHw & _ & IHp).
    cbn [map]. rewrite join_comma_cons2. cbn [map] in *.
    set (J := join_comma (element_text e2 :: map element_text l)) in *.
    split; [|split].
    + apply well_formed_app; [exact Hw|]. now apply well_formed_cons.
    + rewrite Ht. now exists c, (t' ++ 44 :: J).
    + intros [|fuel] rest Hf; [lia|]. rewrite length_app in Hf. cbn [List.length] in Hf.
      rewrite parse_elements_eq, <- app_assoc. cbn [app].
      rewrite Hp; [|lia|reflexivity].
      cbn [skip_ws is_json_whitespace N.eqb Pos.eqb orb].
      rewrite IHp by lia. reflexivity.
Qed.

Lemma parse_members_eq (fuel : nat) (s : jsstring) :
  parse_members (S fuel) s
  = match skip_ws s with
    | c :: rest =>
        if c =? 34 then
          match parse_chars rest with
          | Some (k, rest1) =>
              match skip_ws rest1 with
              | c1 :: rest2 =>
                  if c1 =? 58 then
                    match parse_value fuel rest2 with
                    | Some (v, rest3) =>
                        match skip_ws rest3 with
                        | c3 :: rest4 =>
                            if c3 =? 44 then
                              match parse_members fuel rest4 with
                              | Some (ms, rest5) => Some ((k, v) :: ms, rest5)
                              | None => None
                              end
                            else if c3 =? 125 then Some ([(k, v)], rest4)
                            else None
                        | [] => None
                        end
                    | None => None
                    end
                  else None
              | [] => None
              end
          | None => None
          end
        else None
    | [] => None
    end.
Proof. reflexivity. Qed.

Definition member_ok (kv : jsstring * value) : Prop :=
  is_jsstring (fst kv) /\ has_text (snd kv).

Lemma member_text_eq (k : jsstring) (v : value) (rest : jsstring) :
  member_text (k, v) ++ rest = 34 :: quote_body k ++ 34 :: 58 :: element_text v ++ rest.
Proof.
  unfold member_text, QuoteJSONString. cbn [fst snd app].
  now rewrite <- !app_assoc.
Qed.

(** The members of a non-empty object. *)
Lemma parse_members_texts (props : list (jsstring * value)) :
  Forall member_ok props -> props <> [] ->
  let text := join_comma (map member_text props) in
  well_formed text = true
  /\ forall fuel rest,
       (List.length text + 1 < fuel)%nat ->
       parse_members fuel (text ++ 125 :: rest) = Some (props, rest).
Proof.
  intros H Hne. cbv zeta. induction H as [|[k v] l [Hk He] Hl IH]; [contradiction|].
  clear Hne. cbn [fst snd] in *.
  apply has_text_element in He. destruct He as (Hw & _ & Hp).
  assert (Hwm : well_formed (member_text (k, v)) = true).
  { unfold member_text. cbn [fst snd]. apply well_formed_app;
      [now apply well_formed_quote | now apply well_formed_cons]. }
  assert (Hlen : (List.length (element_text v) < List.length (member_text (k, v)))%nat).
  { unfold member_text. rewrite length_app. cbn [List.length snd]. lia. }
  destruct l as [|kv2 l].
  - cbn [map join_comma]. split; [exact Hwm|].
    intros [|fuel] rest Hf; [lia|]. rewrite parse_members_eq, member_text_eq.
    cbn [skip_ws is_json_whitespace N.eqb Pos.eqb orb].
    rewrite parse_chars_quote by assumption.
    cbn [skip_ws is_json_whitespace N.eqb Pos.eqb orb].
    rewrite Hp; [reflexivity|lia|reflexivity].
  - assert (Hne : kv2 :: l <> []) by discriminate. specialize (IH Hne). clear Hne.
    destruct IH as (IHw & IHp).
    cbn [map]. rewrite join_comma_cons2. cbn [map] in *.
    set (J := join_comma (member_text kv2 :: map member_text l)) in *.
    split.
    + apply well_formed_app; [exact Hwm|]. now apply well_formed_cons.
    + intros [|fuel] rest Hf; [lia|]. rewrite length_app in Hf. cbn [List.length] in Hf.
      rewrite parse_members_eq, <- app_assoc, member_text_eq. cbn [app].
      cbn [skip_ws is_json_whitespace N.eqb Pos.eqb orb].
      rewrite parse_chars_quote by assumption.
      cbn [skip_ws is_json_whitespace N.eqb Pos.eqb orb].
      rewrite Hp; [|lia|reflexivity].
      cbn [skip_ws is_json_whitespace N.eqb Pos.eqb orb].
      rewrite IHp by lia. reflexivity.
Qed.

(** ** Distinct keys *)

Lemma set_prop_fresh (k : jsstring) (v : value) (props : list (jsstring * value)) :
  ~ In k (map fst props) -> set_prop k v props = props ++ [(k, v)].
Proof.
  induction props as [|[k' v'] props IH]; intro H; [reflexivity|].
  cbn [set_prop map fst In app] in *.
  destruct (jsstring_eqb k k') eqn:Hk.
  - apply jsstring_eqb_eq in Hk. subst. tauto.
  - rewrite IH by tauto. reflexivity.
Qed.

Lemma fold_set_prop (members acc : list (jsstring * value)) :
  NoDup (map fst (acc ++ members)) ->
  fold_left (fun props kv => set_prop (fst kv) (snd kv) props) members acc = acc ++ members.
Proof.
  revert acc; induction members as [|[k v] ms IH]; intros acc H.
  - now rewrite app_nil_r.
  - cbn [fold_left fst snd]. rewrite set_prop_fresh.
    + rewrite IH; rewrite <- app_assoc; [reflexivity|exact H].
    + rewrite map_app in H. apply NoDup_remove_2 in H. intro Hin. apply H.
      apply in_or_app. now left.
Qed.

Lemma object_of_distinct (props : list (jsstring * value)) :
  NoDup (map fst props) -> object_of props = Obj props.
Proof. intro H. unfold object_of. now rewrite fold_set_prop. Qed.

(** ** Every safe value *)

Lemma parse_value_eq (fuel : nat) (c : N) (s : jsstring) :
  is_json_whitespace c = false ->
  parse_value (S fuel) (c :: s)
  = if c =? 123 then
      match skip_ws s with
      | c' :: rest' =>
          if c' =? 125 then Some (Obj [], rest')
          else
            match parse_members fuel s with
            | Some (members, rest'') => Some (object_of members, rest'')
            | None => None
            end
      | [] => None
      end
    else if c =? 91 then
      match skip_ws s with
      | c' :: rest' =>
          if c' =? 93 then Some (Arr [], rest')
          else
            match parse_elements fuel s with
            | Some (elems, rest'') => Some (Arr elems, rest'')
            | None => None
            end
      | [] => None
      end
    else if c =? 34 then
      match parse_chars s with
      | Some (str, rest') => Some (Str str, rest')
      | None => None
      end
    else if is_number_char c then
      let '(tok, rest') := span_number (c :: s) in
      match number_of_token tok with
      | Some x => Some (Num x, rest')
      | None => None
      end
    else parse_literal (c :: s).
Proof. intro H. cbn [parse_value]. now rewrite skip_ws_not_ws. Qed.

Lemma map_texts_some (elems : list value) :
  Forall has_text elems ->
  map (fun e => match stringify e with Some t => t | None => js "null" end) elems
  = map element_text elems.
Proof. reflexivity. Qed.

Lemma flat_map_members (props : list (jsstring * value)) :
  Forall member_ok props ->
  flat_map (fun kv => match stringify (snd kv) with
                      | Some t => [QuoteJSONString (fst kv) ++ 58 :: t]
                      | None => []
                      end) props
  = map member_text props.
Proof.
  induction 1 as [|[k v] l [_ (t & Ht & _)] _ IH]; [reflexivity|].
  cbn [flat_map map]. rewrite IH. unfold member_text, element_text.
  cbn [fst snd] in *. now rewrite Ht.
Qed.

Theorem stringify_reads_back (v : value) : json_safe v -> has_text v.
Proof.
  induction v as [| |b|x|s|elems IH|props IH] using value_nested_ind; intro H;
    inversion H; subst; unfold has_text.
  - (* null *)
    eexists. split; [reflexivity|]. split; [reflexivity|]. split.
    + eexists. eexists. split; [reflexivity|]. repeat split; discriminate.
    + intros [|fuel] rest Hf _; [cbn in Hf; lia|reflexivity].
  - (* true, false *)
    eexists. split; [reflexivity|]. destruct b.
    + split; [reflexivity|]. split.
      * eexists. eexists. split; [reflexivity|]. repeat split; discriminate.
      * intros [|fuel] rest Hf _; [cbn in Hf; lia|reflexivity].
    + split; [reflexivity|]. split.
      * eexists. eexists. split; [reflexivity|]. repeat split; discriminate.
      * intros [|fuel] rest Hf _; [cbn in Hf; lia|reflexivity].
  - (* a number *)
    match goal with Hx : number_ok x |- _ => rename Hx into Hn end.
    destruct (number_token_nonempty x Hn) as (c & tok & Ht & Hc).
    destruct Hn as (Hfin & Hchars & Hback).
    destruct (is_number_char_range c Hc) as (Hc1 & Hc2 & Hc3 & Hc4 & Hc5 & Hc6 & Hc7).
    exists (Number_toString x). cbn [stringify]. rewrite Hfin.
    split; [reflexivity|]. split; [|split].
    + apply well_formed_plain. apply Forall_forall. intros u Hu.
      rewrite forallb_forall in Hchars. apply Hchars in Hu.
      apply is_number_char_range in Hu. lia.
    + exists c, tok. repeat split; try assumption. lia.
    + intros [|fuel] rest Hf Hstop; [lia|].
      rewrite Ht. cbn [app]. rewrite parse_value_eq by assumption.
      apply N.eqb_neq in Hc2, Hc3, Hc4. rewrite Hc2, Hc3, Hc4, Hc.
      change (c :: tok ++ rest) with ((c :: tok) ++ rest). rewrite <- Ht.
      rewrite span_number_token by assumption. now rewrite Hback.
  - (* a string *)
    match goal with Hx : is_jsstring s |- _ => rename Hx into Hs end.
    exists (QuoteJSONString s). split; [reflexivity|]. split; [|split].
    + now apply well_formed_quote.
    + eexists. eexists. split; [reflexivity|]. repeat split; discriminate.
    + intros [|fuel] rest Hf _; [lia|]. unfold QuoteJSONString. cbn [app].
      rewrite parse_value_eq by reflexivity. cbn [N.eqb Pos.eqb].
      rewrite <- app_assoc. cbn [app]. now rewrite parse_chars_quote.
  - (* an array *)
    match goal with Hx : Forall json_safe elems |- _ => rename Hx into He end.
    assert (Ht : Forall has_text elems).
    { rewrite Forall_forall in *. intros e Hin. now apply IH; [|apply He]. }
    eexists. split; [reflexivity|]. rewrite map_texts_some by assumption.
    destruct elems as [|e l].
    + split; [reflexivity|]. split.
      * eexists. eexists. split; [reflexivity|]. repeat split; discriminate.
      * intros [|fuel] rest Hf _; [cbn in Hf; lia|reflexivity].
    + destruct (parse_elements_texts (e :: l) Ht) as (Hw & (c & t' & Htx & Hc) & Hp);
        [discriminate|].
      set (J := join_comma (map element_text (e :: l))) in *.
      split; [|split].
      * apply well_formed_cons; [lia|]. apply well_formed_app; [exact Hw|reflexivity].
      * eexists. eexists. split; [reflexivity|]. repeat split; discriminate.
      * intros [|fuel] rest Hf _; [lia|]. cbn [app List.length] in *.
        rewrite length_app in Hf. cbn [List.length] in Hf.
        rewrite parse_value_eq by reflexivity. cbn [N.eqb Pos.eqb].
        rewrite <- app_assoc. cbn [app]. rewrite Htx. cbn [app].
        destruct Hc as (Hws & H93 & _). rewrite skip_ws_not_ws by assumption.
        apply N.eqb_neq in H93. rewrite H93.
        change (c :: t' ++ 93 :: rest) with ((c :: t') ++ 93 :: rest). rewrite <- Htx.
        rewrite Hp by lia. reflexivity.
  - (* an object *)
    match goal with
    | Hx : Forall _ props, Hy : NoDup _ |- _ => rename Hx into He; rename Hy into Hd
    end.
    assert (Ht : Forall member_ok props).
    { rewrite Forall_forall in *. intros kv Hin. destruct (He kv Hin) as [Hk Hv].
      split; [exact Hk|]. now apply IH. }
    eexists. split; [reflexivity|]. rewrite flat_map_members by assumption.
    destruct props as [|kv l].
    + split; [reflexivity|]. split.
      * eexists. eexists. split; [reflexivity|]. repeat split; discriminate.
      * intros [|fuel] rest Hf _; [cbn in Hf; lia|reflexivity].
    + destruct (parse_members_texts (kv :: l) Ht) as (Hw & Hp); [discriminate|].
      set (J := join_comma (map member_text (kv :: l))) in *.
      assert (HJ : exists t', J = 34 :: t').
      { subst J. destruct kv as [k v]. destruct l; cbn [map]; [|rewrite join_comma_cons2];
          unfold member_text, QuoteJSONString; cbn [fst app join_comma]; eexists; reflexivity. }
      destruct HJ as [t' HJ].
      split; [|split].
      * apply well_formed_cons; [lia|]. apply well_formed_app; [exact Hw|reflexivity].
      * eexists. eexists. split; [reflexivity|]. repeat split; discriminate.
      * intros [|fuel] rest Hf _; [lia|]. cbn [app List.length] in *.
        rewrite length_app in Hf. cbn [List.length] in Hf.
        rewrite parse_value_eq by reflexivity. cbn [N.eqb Pos.eqb].
        rewrite <- app_assoc. cbn [app]. rewrite HJ at 1. cbn [app].
        cbn [skip_ws is_json_whitespace N.eqb Pos.eqb orb].
        rewrite Hp by lia. now rewrite object_of_distinct.
Qed.

(** [JSON.parse(JSON.stringify(v))] is [v] for a safe value, and the
    text is well formed and does not start with a byte order mark. *)
Theorem JSON_roundtrip (v : value) :
  json_safe v ->
  exists text,
    JSON_stringify v = Some text
    /\ JSON_parse text = Some v
    /\ well_formed text = true
    /\ hd 0 text <> 65279
    /\ text <> [].
Proof.
  intro H. destruct (stringify_reads_back v H) as (t & Ht & Hw & (c & t' & Hc & Hcs) & Hp).
  exists t. split; [exact Ht|]. split; [|split; [exact Hw|]].
  - unfold JSON_parse. rewrite <- (app_nil_r t) at 2.
    rewrite Hp; [reflexivity|lia|exact I].
  - subst t. cbn [hd]. split; [tauto|discriminate].
Qed.

(* ================================================================== *)
(** * The share link                                                   *)
(* ================================================================== *)

Fixpoint distinct (l : list jsstring) : bool :=
  match l with
  | [] => true
  | k :: rest => negb (existsb (jsstring_eqb k) rest) && distinct rest
  end.

Lemma distinct_NoDup (l : list jsstring) : distinct l = true -> NoDup l.
Proof.
  induction l as [|k rest IH]; intro H; [constructor|].
  cbn [distinct] in H. apply andb_true_iff in H as [Hk Hr]. constructor; [|now apply IH].
  intro Hin. apply negb_true_iff in Hk.
  assert (Hex : existsb (jsstring_eqb k) rest = true).
  { apply existsb_exists. exists k. split; [exact Hin | apply jsstring_eqb_refl]. }
  congruence.
Qed.

(** A field that holds a string of 16-bit code units. *)
Definition text_ok (v : value) : Prop :=
  match v with
  | Str s => is_jsstringb s = true
  | _ => False
  end.

Definition item_ok (it : LineItem) : Prop :=
  is_jsstringb (id it) = true /\ is_jsstringb (description it) = true
  /\ number_ok (quantity it) /\ number_ok (unitPrice it).

(** An invoice every field of which has its declared type, and whose
    numbers are printed and read back unchanged. *)
Definition valid_invoice (inv : Invoice) : Prop :=
  Forall (fun f => text_ok (snd f inv)) string_fields
  /\ number_ok (taxRatePct inv)
  /\ Forall item_ok (items inv).

Lemma text_ok_safe (v : value) : text_ok v -> json_safe v /\ is_nullish v = false.
Proof.
  destruct v; try contradiction. intro H. split; [|reflexivity].
  constructor. now apply is_jsstring_b.
Qed.

Lemma literal_key (k : string) : is_jsstringb (js k) = true -> is_jsstring (js k).
Proof. apply is_jsstring_b. Qed.

Lemma item_value_safe (it : LineItem) : item_ok it -> json_safe (item_value it).
Proof.
  intros (Hi & Hd & Hq & Hp). unfold item_value. apply safe_obj.
  - repeat apply Forall_cons; try apply Forall_nil; cbn [fst snd];
      (split; [apply literal_key; reflexivity|]);
      constructor; try assumption; now apply is_jsstring_b.
  - apply distinct_NoDup. reflexivity.
Qed.

Lemma invoice_value_safe (inv : Invoice) :
  valid_invoice inv ->
  json_safe (invoice_value inv)
  /\ Forall (fun f => is_nullish (snd f inv) = false) string_fields.
Proof.
  intros (Hs & Ht & Hi). unfold string_fields in *.
  repeat match goal with
         | H : Forall _ (_ :: _) |- _ =>
             let H1 := fresh "Hf" in apply Forall_cons_iff in H as [H1 H];
             cbn [snd] in H1; apply text_ok_safe in H1; destruct H1
         end.
  split.
  - unfold invoice_value. apply safe_obj.
    + repeat apply Forall_cons; try apply Forall_nil; cbn [fst snd];
        (split; [apply literal_key; reflexivity|]); try assumption.
      * now constructor.
      * constructor. apply Forall_map. eapply Forall_impl; [|exact Hi].
        intros it. apply item_value_safe.
    + apply distinct_NoDup. reflexivity.
  - repeat apply Forall_cons; try apply Forall_nil; assumption.
Qed.

Lemma b64_groups_nonempty (bytes : list N) : bytes <> [] -> b64_groups bytes <> [].
Proof.
  destruct bytes as [|a [|b [|c rest]]]; intro H; [contradiction| | |]; discriminate.
Qed.

Lemma TextEncoder_nonempty (text : jsstring) : text <> [] -> TextEncoder_encode text <> [].
Proof.
  destruct text as [|u rest]; [contradiction|]. intros _.
  unfold TextEncoder_encode. rewrite scalar_values_eq.
  assert (Hb : forall cp l, flat_map utf8_bytes (cp :: l) <> []).
  { intros cp l. cbn [flat_map]. unfold utf8_bytes.
    destruct (cp <? 128); [|destruct (cp <? 2048); [|destruct (cp <? 65536)]]; discriminate. }
  destruct (is_high_surrogate u); [destruct rest as [|l rest']; [|destruct (is_low_surrogate l)]
                                  |destruct (is_low_surrogate u)]; apply Hb.
Qed.

Lemma base64UrlDecodeUtf8_counter (data : jsstring) (n : nat) :
  snd (base64UrlDecodeUtf8 data n) = n.
Proof.
  unfold base64UrlDecodeUtf8, bind, atob.
  destruct (_ =? 1); [reflexivity|]. destruct (indices _); reflexivity.
Qed.

Section ShareLink.

Variable E : Env.
Variable example : Invoice.

(** What [parseInvoiceFromUrl] returns when there is no [data]. *)
Lemma parse_no_data (n : nat) :
  parseInvoiceFromUrl E example (Some None) n
  = (Return (normalized E (invoice_value example) n, []), n).
Proof.
  unfold parseInvoiceFromUrl, bind. rewrite normalizeInvoice_run by reflexivity.
  destruct (normalizeInvoice_keeps_items E example n) as (inv' & Hr & _).
  rewrite normalizeInvoice_run in Hr by reflexivity. injection Hr as _ Hn.
  now rewrite Hn.
Qed.

(** A token whose decoding throws, or gives a text that is not JSON or
    is the JSON of a falsy value. *)
Definition undecodable (data : jsstring) (n : nat) : Prop :=
  match fst (base64UrlDecodeUtf8 data n) with
  | Throw _ => True
  | Return json => truthy (safeJsonParse json) = false
  end.

(** C8, amended.  For a token that cannot be decoded (base64 that
    [atob] rejects, or a text that is not the JSON of a truthy value)
    [parseInvoiceFromUrl] does not throw and returns the normalized
    example invoice with the empty status: not the status of a loaded
    link, and the very result it returns when there is no [data]. *)
Theorem C8_undecodable_falls_back (data : jsstring) (n : nat) :
  undecodable data n ->
  parseInvoiceFromUrl E example (Some (Some data)) n
  = (Return (normalized E (invoice_value example) n, []), n)
  /\ normalizeInvoice E (invoice_value example) n
     = (Return (normalized E (invoice_value example) n), n)
  /\ parseInvoiceFromUrl E example (Some (Some data)) n
     = parseInvoiceFromUrl E example (Some None) n
  /\ [] <> js "Loaded invoice from share link.".
Proof.
  intro H. pose proof (parse_no_data n) as Hnone.
  assert (Hnorm : normalizeInvoice E (invoice_value example) n
                  = (Return (normalized E (invoice_value example) n), n)).
  { destruct (normalizeInvoice_keeps_items E example n) as (inv' & Hr & _).
    rewrite normalizeInvoice_run in Hr |- * by reflexivity. injection Hr as _ Hn.
    now rewrite Hn. }
  assert (Hdata : parseInvoiceFromUrl E example (Some (Some data)) n
                  = (Return (normalized E (invoice_value example) n, []), n)).
  { destruct data as [|c data]; [exact Hnone|].
    unfold undecodable in H. pose proof (base64UrlDecodeUtf8_counter (c :: data) n) as Hc.
    unfold parseInvoiceFromUrl, try_catch. unfold bind at 1.
    destruct (base64UrlDecodeUtf8 (c :: data) n) as [[json|e] n'];
      cbn [fst snd] in *; subst n'.
    - rewrite H. cbn [negb]. unfold bind. now rewrite Hnorm.
    - unfold bind. now rewrite Hnorm. }
  repeat split; try assumption; [congruence|discriminate].
Qed.

(** C1, amended.  For every invoice whose fields have their declared
    types and whose numbers are finite and read back unchanged from
    their decimal text, [copyShareLink] builds a token from which
    [parseInvoiceFromUrl] returns that very invoice, which is also what
    [normalizeInvoice] makes of it: every field and every item id is
    preserved, and no identifier is generated.  (The items need not even
    be non-empty.) *)
Theorem C1_share_link_roundtrip (invoice : Invoice) (n : nat) :
  valid_invoice invoice ->
  exists json token,
    JSON_stringify (invoice_value invoice) = Some json
    /\ shareToken invoice n = (Return token, n)
    /\ base64UrlDecodeUtf8 token n = (Return json, n)
    /\ safeJsonParse json = invoice_value invoice
    /\ parseInvoiceFromUrl E example (Some (Some token)) n
       = (Return (invoice, js "Loaded invoice from share link."), n)
    /\ normalizeInvoice E (invoice_value invoice) n = (Return invoice, n).
Proof.
  intro Hv. destruct (invoice_value_safe invoice Hv) as [Hsafe Hnn].
  destruct (JSON_roundtrip _ Hsafe) as (json & Hjson & Hparse & Hw & Hbom & Hne).
  destruct (TextDecoder_TextEncoder json Hw Hbom) as [Hdec Hbytes].
  destruct (base64Url_roundtrip json n Hbytes) as (token & Henc & Hlen & Hback).
  rewrite Hdec in Hback.
  assert (Hfix := normalizeInvoice_fixed E invoice n Hnn).
  assert (Hsp : safeJsonParse json = invoice_value invoice)
    by (unfold safeJsonParse; now rewrite Hparse).
  exists json, token. repeat split; try assumption.
  - unfold shareToken. now rewrite Hjson.
  - destruct token as [|c token].
    + exfalso. cbn [List.length] in Hlen. symmetry in Hlen.
      apply length_zero_iff_nil in Hlen.
      now apply (b64_groups_nonempty _ (TextEncoder_nonempty json Hne)).
    + unfold parseInvoiceFromUrl, try_catch. unfold bind at 1. rewrite Hback, Hsp.
      cbn [truthy invoice_value negb]. unfold bind. now rewrite Hfix.
Qed.

End ShareLink.

Local Close Scope N_scope.

Local Open Scope js_scope.

(* ================================================================== *)
(** * The share link on concrete invoices                              *)
(* ================================================================== *)

(** [Number::toString] and the reading of a JSON number, on examples. *)
Example Number_toString_examples :
  Number_toString 0.1 = js "0.1" /\ Number_toString 1800 = js "1800"
  /\ Number_toString 1e21 = js "1e+21" /\ Number_toString 1.5e-7 = js "1.5e-7"
  /\ Number_toString (0.1 + 0.2) = js "0.30000000000000004"
  /\ Number_toString (-1.25) = js "-1.25" /\ Number_toString 5e-324 = js "5e-324"
  /\ Number_toString (-0) = js "0".
Proof. repeat split; vm_compute; reflexivity. Qed.

Example number_of_token_examples :
  number_of_token (js "0.1") = Some 0.1%float
  /\ number_of_token (js "1e999") = Some infinity
  /\ number_of_token (js "-0") = Some (-0)%float
  /\ number_of_token (js "1.5E3") = Some 1500%float
  /\ number_of_token (js "01") = None /\ number_of_token (js "1.") = None
  /\ number_of_token (js "9007199254740993") = Some 9007199254740992%float.
Proof. repeat split; vm_compute; reflexivity. Qed.

Lemma example0_valid : valid_invoice example0.
Proof.
  unfold valid_invoice, string_fields. repeat split;
    repeat (apply Forall_cons || apply Forall_nil); repeat split;
    vm_compute; reflexivity.
Qed.

(** The theorem on the example invoice. *)
Lemma C1_share_link_roundtrip_witness :
  valid_invoice example0
  /\ exists json token,
       JSON_stringify (invoice_value example0) = Some json
       /\ shareToken example0 2 = (Return token, 2%nat)
       /\ base64UrlDecodeUtf8 token 2 = (Return json, 2%nat)
       /\ safeJsonParse json = invoice_value example0
       /\ parseInvoiceFromUrl E0 example0 (Some (Some token)) 2
          = (Return (example0, js "Loaded invoice from share link."), 2%nat)
       /\ normalizeInvoice E0 (invoice_value example0) 2 = (Return example0, 2%nat).
Proof.
  split; [exact example0_valid|].
  exact (C1_share_link_roundtrip E0 example0 example0 2 example0_valid).
Defined.

(** The example invoice with a tax rate of [Infinity]: a number, as
    [JSON.parse] reads it from [1e999]. *)
Definition overflowing : Invoice :=
  {| fromName := fromName example0; fromAddress := fromAddress example0;
     billToName := billToName example0; billToAddress := billToAddress example0;
     invoiceNumber := invoiceNumber example0; issueDate := issueDate example0;
     dueDate := dueDate example0; currency := currency example0;
     taxRatePct := infinity;
     notes := notes example0; items := items example0 |}.

(** An invoice with such a tax rate is what [normalizeInvoice] makes of
    the JSON text [{"taxRatePct":1e999}]. *)
Example overflow_is_read :
  let text := [123; 34]%N ++ js "taxRatePct" ++ [34; 58]%N ++ js "1e999" ++ [125]%N in
  safeJsonParse text = Obj [(js "taxRatePct", Num infinity)]
  /\ exists inv n, normalizeInvoice E0 (safeJsonParse text) 2 = (Return inv, n)
                   /\ taxRatePct inv = infinity.
Proof.
  split; [vm_compute; reflexivity|]. eexists. eexists.
  split; vm_compute; reflexivity.
Qed.

(** C1, as stated, fails on an invoice whose fields all have their
    declared types but whose tax rate is [Infinity]: [JSON.stringify]
    prints [null] for it, and the decoded invoice has a tax rate of 0,
    while normalizing the invoice itself keeps [Infinity]. *)
Lemma C1_counterexample :
  well_typed overflowing /\ items overflowing <> []
  /\ exists token decoded,
       shareToken overflowing 2 = (Return token, 2%nat)
       /\ parseInvoiceFromUrl E0 example0 (Some (Some token)) 2
          = (Return (decoded, js "Loaded invoice from share link."), 2%nat)
       /\ normalizeInvoice E0 (invoice_value overflowing) 2 = (Return overflowing, 2%nat)
       /\ taxRatePct decoded = 0%float
       /\ taxRatePct overflowing = infinity
       /\ decoded <> overflowing.
Proof.
  split; [|split; [discriminate|]].
  - unfold well_typed, string_fields.
    repeat (apply Forall_cons || apply Forall_nil); reflexivity.
  - eexists. eexists. split; [vm_compute; reflexivity|].
    split; [vm_compute; reflexivity|].
    split; [vm_compute; reflexivity|].
    split; [reflexivity|]. split; [reflexivity|].
    intro H. apply (f_equal (fun i => is_finite (taxRatePct i))) in H.
    vm_compute in H. discriminate H.
Qed.

(** The theorem on the token of the specification. *)
Lemma C8_undecodable_falls_back_witness :
  undecodable (js "not-base64!!") 2
  /\ parseInvoiceFromUrl E0 example0 (Some (Some (js "not-base64!!"))) 2
     = (Return (normalized E0 (invoice_value example0) 2, []), 2%nat)
  /\ normalizeInvoice E0 (invoice_value example0) 2
     = (Return (normalized E0 (invoice_value example0) 2), 2%nat)
  /\ parseInvoiceFromUrl E0 example0 (Some (Some (js "not-base64!!"))) 2
     = parseInvoiceFromUrl E0 example0 (Some None) 2
  /\ [] <> js "Loaded invoice from share link.".
Proof.
  assert (H : undecodable (js "not-base64!!") 2) by (vm_compute; exact I).
  split; [exact H|].
  exact (C8_undecodable_falls_back E0 example0 (js "not-base64!!") 2 H).
Defined.

(** C8, as stated, fails: for the token ["not-base64!!"] the caller
    receives exactly what it receives when there is no [data], the
    example invoice and the empty status, so the status tells the two
    apart in no way. *)
Lemma C8_counterexample :
  fst (base64UrlDecodeUtf8 (js "not-base64!!") 2) = Throw InvalidCharacterError
  /\ parseInvoiceFromUrl E0 example0 (Some (Some (js "not-base64!!"))) 2
     = (Return (example0, []), 2%nat)
  /\ parseInvoiceFromUrl E0 example0 (Some None) 2 = (Return (example0, []), 2%nat).
Proof. repeat split; vm_compute; reflexivity. Qed.

(** Bytes that are not UTF-8 do not make the decoding fail: the byte
    255 inside a string is replaced by U+FFFD and the link is loaded. *)
Definition invalid_utf8_token : jsstring :=
  Eval vm_compute in
    replaceAll 61 [] (replaceAll 47 (js "_") (replaceAll 43 (js "-")
      (b64_encode ([123; 34] ++ js "notes" ++ [34; 58; 34; 255; 34; 125])%N))).

Example invalid_utf8_is_loaded :
  fst (base64UrlDecodeUtf8 invalid_utf8_token 2)
  = Return ([123; 34] ++ js "notes" ++ [34; 58; 34; 65533; 34; 125])%N
  /\ exists inv,
       parseInvoiceFromUrl E0 example0 (Some (Some invalid_utf8_token)) 2
       = (Return (inv, js "Loaded invoice from share link."), 3%nat)
       /\ notes inv = Str [65533%N].
Proof.
  split; [vm_compute; reflexivity|]. eexists. split; vm_compute; reflexivity.
Qed.

(** A text that is the JSON of a falsy value is not loaded either. *)
Example null_payload_falls_back :
  undecodable (js "bnVsbA") 2
  /\ fst (base64UrlDecodeUtf8 (js "bnVsbA") 2) = Return (js "null").
Proof. split; vm_compute; reflexivity. Qed.

(* ================================================================== *)
(** * More of the normalizer                                           *)
(* ================================================================== *)

(** The names [normalizeInvoice] reads from its input. *)
Definition invoice_keys : list string :=
  [ "fromName"; "fromAddress"; "billToName"; "billToAddress"; "invoiceNumber";
    "issueDate"; "dueDate"; "currency"; "taxRatePct"; "notes"; "items" ]%string.

(** The entries of an array that have no string [id]. *)
Definition lacks_id (entry : value) : bool := negb (is_string (prop_of entry "id")).

Definition count_lacking (elems : list value) : nat :=
  List.length (filter lacks_id elems).

Section NormalizerMore.

Variable E : Env.

(** The dates, the currency and the tax rate: [issueDate] is the input's
    value unless that is absent or [null], when it is today's date;
    [dueDate] likewise with the date in 14 days; [currency] likewise with
    ["USD"]; [taxRatePct] is the input's value when that is a number and
    0 otherwise, whatever else it is. *)
Theorem normalize_dates_currency_tax (v : value) (n : nat) :
  match normalizeInvoice E v n with
  | (Return inv, _) =>
      issueDate inv = (if is_nullish (prop_of v "issueDate")
                       then Str (format_date (date_in E 0)) else prop_of v "issueDate")
      /\ dueDate inv = (if is_nullish (prop_of v "dueDate")
                        then Str (format_date (date_in E 14)) else prop_of v "dueDate")
      /\ currency inv = (if is_nullish (prop_of v "currency")
                         then Str (js "USD") else prop_of v "currency")
      /\ taxRatePct inv = match prop_of v "taxRatePct" with
                          | Num t => t
                          | _ => 0%float
                          end
  | (Throw _, _) => is_nullish v = true
  end.
Proof.
  destruct (is_nullish v) eqn:Hv.
  - now rewrite normalizeInvoice_nullish.
  - rewrite normalizeInvoice_run by assumption. unfold normalized.
    cbn [issueDate dueDate currency taxRatePct]. repeat split.
Qed.

(** [normalizeInvoice] reads nothing but the eleven properties it names:
    two inputs that agree on them are normalized alike.  So a property of
    any other name is ignored. *)
Theorem normalize_reads_named_properties (v w : value) (n : nat) :
  is_nullish v = false -> is_nullish w = false ->
  (forall k, In k invoice_keys -> prop_of v k = prop_of w k) ->
  normalizeInvoice E v n = normalizeInvoice E w n.
Proof.
  intros Hv Hw H. rewrite !normalizeInvoice_run by assumption.
  unfold normalized, items_run.
  rewrite !(H "fromName"%string), !(H "fromAddress"%string), !(H "billToName"%string),
          !(H "billToAddress"%string), !(H "invoiceNumber"%string), !(H "issueDate"%string),
          !(H "dueDate"%string), !(H "currency"%string), !(H "taxRatePct"%string),
          !(H "notes"%string), !(H "items"%string) by (cbn; tauto).
  reflexivity.
Qed.

(** A number, a string, a boolean or an array is normalized like the
    empty object: every field takes its default. *)
Theorem normalize_primitive_like_empty_object (v : value) (n : nat) :
  is_nullish v = false -> (forall props, v <> Obj props) ->
  normalizeInvoice E v n = normalizeInvoice E (Obj []) n.
Proof.
  intros Hv Hobj. rewrite !normalizeInvoice_run by (assumption || reflexivity).
  destruct v; try discriminate; try reflexivity. now elim (Hobj props).
Qed.

(** ** The identifiers generated *)

Lemma coerced_all_ids (elems : list value) (n : nat) :
  snd (coerced_all E elems n) = (n + count_lacking elems)%nat
  /\ forall i entry,
       nth_error elems i = Some entry ->
       exists it,
         nth_error (fst (coerced_all E elems n)) i = Some it
         /\ id it = match prop_of entry "id" with
                    | Str s => s
                    | _ => uid_at E (n + count_lacking (firstn i elems))
                    end.
Proof.
  revert n; induction elems as [|e rest IH]; intro n.
  - split; [cbn; lia|]. intros [|i] entry H; discriminate.
  - cbn [coerced_all].
    specialize (IH (if is_string (prop_of e "id") then n else S n)).
    destruct (coerced_all E rest _) as [its n2]. cbn [fst snd] in *.
    destruct IH as [IHn IHi].
    assert (Hc : forall l, count_lacking (e :: l)
                           = ((if is_string (prop_of e "id") then 0 else 1)
                              + count_lacking l)%nat).
    { intro l. unfold count_lacking, lacks_id. cbn [filter].
      destruct (is_string (prop_of e "id")); reflexivity. }
    split.
    + rewrite IHn, Hc. destruct (is_string (prop_of e "id")); lia.
    + intros [|i] entry H.
      * cbn in H. injection H as <-. eexists. split; [reflexivity|].
        cbn [id coerced firstn]. unfold count_lacking. cbn [filter List.length].
        now rewrite Nat.add_0_r.
      * cbn [nth_error] in H. destruct (IHi i entry H) as (it & Hit & Hid).
        exists it. split; [exact Hit|]. rewrite Hid. cbn [firstn]. rewrite Hc.
        destruct (prop_of entry "id"); try reflexivity;
          f_equal; destruct (is_string (prop_of e "id")); lia.
Qed.

(** The identifiers [normalizeInvoice] generates for an array: it calls
    [uid()] once for each entry without a string [id], in the order of
    the entries, and for nothing else; the item of such an entry gets the
    identifier of the call that follows those made for the entries before
    it. *)
Theorem normalize_generated_ids (v : value) (elems : list value) (n : nat) :
  is_nullish v = false -> prop_of v "items" = Arr elems ->
  exists inv,
    normalizeInvoice E v n = (Return inv, (n + count_lacking elems)%nat)
    /\ List.length (items inv) = List.length elems
    /\ forall i entry,
         nth_error elems i = Some entry ->
         exists it,
           nth_error (items inv) i = Some it
           /\ id it = match prop_of entry "id" with
                      | Str s => s
                      | _ => uid_at E (n + count_lacking (firstn i elems))
                      end.
Proof.
  intros Hv Hi. rewrite normalizeInvoice_run by assumption.
  unfold normalized, items_run. rewrite Hi. cbn [items].
  destruct (coerced_all_ids elems n) as [Hn Hids].
  eexists. split; [rewrite Hn; reflexivity|]. cbn [items].
  split; [apply coerced_all_length | exact Hids].
Qed.

End NormalizerMore.

Lemma normalize_reads_named_properties_witness :
  let v := Obj [(js "currency", Str (js "EUR")); (js "paid", Bool true)] in
  let w := Obj [(js "currency", Str (js "EUR"))] in
  is_nullish v = false /\ is_nullish w = false
  /\ (forall k, In k invoice_keys -> prop_of v k = prop_of w k)
  /\ normalizeInvoice E0 v 0 = normalizeInvoice E0 w 0.
Proof.
  cbv zeta.
  assert (H : forall k, In k invoice_keys ->
                prop_of (Obj [(js "currency", Str (js "EUR")); (js "paid", Bool true)]) k
                = prop_of (Obj [(js "currency", Str (js "EUR"))]) k).
  { intros k Hk. cbn in Hk.
    repeat (destruct Hk as [<-|Hk]; [reflexivity|]). contradiction. }
  split; [reflexivity|]. split; [reflexivity|]. split; [exact H|].
  exact (normalize_reads_named_properties E0
           (Obj [(js "currency", Str (js "EUR")); (js "paid", Bool true)])
           (Obj [(js "currency", Str (js "EUR"))]) 0 eq_refl eq_refl H).
Defined.

Lemma normalize_primitive_like_empty_object_witness :
  is_nullish (Num 42) = false /\ (forall props, Num 42 <> Obj props)
  /\ normalizeInvoice E0 (Num 42) 0 = normalizeInvoice E0 (Obj []) 0.
Proof.
  assert (H : forall props, Num 42 <> Obj props) by (intros props; discriminate).
  split; [reflexivity|]. split; [exact H|].
  exact (normalize_primitive_like_empty_object E0 (Num 42) 0 eq_refl H).
Defined.

Lemma normalize_generated_ids_witness :
  let elems := [Null; Obj [(js "id", Str (js "a"))]; Num 7] in
  let v := Obj [(js "items", Arr elems)] in
  is_nullish v = false /\ prop_of v "items" = Arr elems
  /\ exists inv,
       normalizeInvoice E0 v 5 = (Return inv, (5 + count_lacking elems)%nat)
       /\ List.length (items inv) = List.length elems
       /\ forall i entry,
            nth_error elems i = Some entry ->
            exists it,
              nth_error (items inv) i = Some it
              /\ id it = match prop_of entry "id" with
                         | Str s => s
                         | _ => uid_at E0 (5 + count_lacking (firstn i elems))
                         end.
Proof.
  cbv zeta. split; [reflexivity|]. split; [reflexivity|].
  exact (normalize_generated_ids E0
           (Obj [(js "items", Arr [Null; Obj [(js "id", Str (js "a"))]; Num 7])])
           [Null; Obj [(js "id", Str (js "a"))]; Num 7] 5 eq_refl eq_refl).
Defined.

(* ================================================================== *)
(** * More of the editing functions                                    *)
(* ================================================================== *)

Lemma filter_length_le {A} (f : A -> bool) (l : list A) :
  (List.length (filter f l) <= List.length l)%nat.
Proof.
  induction l as [|x l IH]; [cbn; lia|]. cbn. destruct (f x); cbn; lia.
Qed.

Lemma filter_twice {A} (f : A -> bool) (l : list A) : filter f (filter f l) = filter f l.
Proof.
  induction l as [|x l IH]; [reflexivity|]. cbn. destruct (f x) eqn:Hx; [|exact IH].
  cbn. now rewrite Hx, IH.
Qed.

Lemma filter_none {A} (f : A -> bool) (l : list A) :
  (forall x, In x l -> f x = true) -> filter f l = l.
Proof.
  induction l as [|x l IH]; intro H; [reflexivity|]. cbn.
  rewrite (H x) by now left. f_equal. apply IH. intros y Hy. apply H. now right.
Qed.

(** Removing an id twice is removing it once, and removing never adds
    an item nor touches another field. *)
Theorem removeItem_idempotent (id0 : jsstring) (prev : Invoice) :
  removeItem id0 (removeItem id0 prev) = removeItem id0 prev
  /\ (List.length (items (removeItem id0 prev)) <= List.length (items prev))%nat
  /\ with_items (removeItem id0 prev) (items prev) = prev.
Proof.
  unfold removeItem. destruct (Nat.leb_spec (List.length (items prev)) 1) as [Hle|Hgt].
  - cbn [items with_items]. apply Nat.leb_le in Hle. rewrite Hle.
    split; [reflexivity|]. split; [lia|]. now destruct prev.
  - cbn [items with_items fromName fromAddress billToName billToAddress invoiceNumber
         issueDate dueDate currency taxRatePct notes].
    split; [|split; [apply filter_length_le | now destruct prev]].
    destruct (List.length (filter _ (items prev)) <=? 1)%nat; [reflexivity|].
    now rewrite filter_twice.
Qed.

(** Removing an id that no item carries changes nothing. *)
Theorem removeItem_absent_id (id0 : jsstring) (prev : Invoice) :
  (forall it, In it (items prev) -> id it <> id0) -> removeItem id0 prev = prev.
Proof.
  intro H. unfold removeItem. destruct (List.length (items prev) <=? 1)%nat.
  - apply with_items_same.
  - rewrite filter_none; [apply with_items_same|].
    intros it Hin. apply negb_true_iff, jsstring_eqb_neq. now apply H.
Qed.

Lemma removeItem_absent_id_witness :
  (forall it, In it (items example0) -> id it <> js "zz")
  /\ removeItem (js "zz") example0 = example0.
Proof.
  assert (H : forall it, In it (items example0) -> id it <> js "zz").
  { intros it [<-|[<-|[]]]; discriminate. }
  split; [exact H|]. exact (removeItem_absent_id (js "zz") example0 H).
Defined.

(** With pairwise distinct ids and more than one item, [removeItem] of
    the id of an item removes that item and no other: one item fewer,
    and the ids stay pairwise distinct. *)
Theorem removeItem_distinct_ids (it0 : LineItem) (prev : Invoice) :
  NoDup (map id (items prev)) -> In it0 (items prev) ->
  (1 < List.length (items prev))%nat ->
  S (List.length (items (removeItem (id it0) prev))) = List.length (items prev)
  /\ ~ In it0 (items (removeItem (id it0) prev))
  /\ NoDup (map id (items (removeItem (id it0) prev))).
Proof.
  intros Hnd Hin Hlen. destruct (removeItem_many (id it0) prev Hlen) as [Heq Hiff].
  rewrite Heq. clear Heq Hiff Hlen.
  induction (items prev) as [|x l IH]; [contradiction|].
  cbn [map] in Hnd. apply NoDup_cons_iff in Hnd as [Hx Hl]. cbn [filter].
  destruct Hin as [->|Hin].
  - rewrite jsstring_eqb_refl. cbn [negb].
    rewrite filter_none.
    + split; [reflexivity|]. split; [|exact Hl].
      intro Hi. apply Hx. now apply in_map.
    + intros y Hy. apply negb_true_iff, jsstring_eqb_neq. intro Heq.
      apply Hx. rewrite <- Heq. now apply in_map.
  - assert (Hne : id x <> id it0).
    { intro Heq. apply Hx. rewrite Heq. now apply in_map. }
    apply jsstring_eqb_neq in Hne. rewrite Hne. cbn [negb List.length map].
    destruct (IH Hl Hin) as (IH1 & IH2 & IH3). split; [now rewrite IH1|]. split.
    + intros [->|Hi]; [|now apply IH2].
      apply jsstring_eqb_neq in Hne. now apply Hne.
    + constructor; [|exact IH3]. intro Hi. apply Hx.
      apply in_map_iff in Hi as (y & Hy & Hyin). apply in_map_iff.
      exists y. split; [exact Hy|]. now apply filter_In in Hyin.
Qed.

Lemma removeItem_distinct_ids_witness :
  let it0 := {| id := js "id0"; description := js "Landing page design (Figma)";
                quantity := 1; unitPrice := 900 |} in
  NoDup (map id (items example0)) /\ In it0 (items example0)
  /\ (1 < List.length (items example0))%nat
  /\ S (List.length (items (removeItem (id it0) example0))) = List.length (items example0)
  /\ ~ In it0 (items (removeItem (id it0) example0))
  /\ NoDup (map id (items (removeItem (id it0) example0))).
Proof.
  cbv zeta.
  assert (H1 : NoDup (map id (items example0))) by (apply distinct_NoDup; reflexivity).
  assert (H2 : In {| id := js "id0"; description := js "Landing page design (Figma)";
                     quantity := 1; unitPrice := 900 |} (items example0)) by (now left).
  assert (H3 : (1 < List.length (items example0))%nat) by (cbn; lia).
  split; [exact H1|]. split; [exact H2|]. split; [exact H3|].
  exact (removeItem_distinct_ids _ example0 H1 H2 H3).
Defined.

(** [updateItem] with an id that no item carries, or with a patch that
    supplies no field, changes nothing. *)
Theorem updateItem_nothing_to_do (id0 : jsstring) (patch : ItemPatch) (prev : Invoice) :
  ((forall it, In it (items prev) -> id it <> id0)
   \/ patch = {| patch_id := None; patch_description := None;
                 patch_quantity := None; patch_unitPrice := None |}) ->
  updateItem id0 patch prev = prev.
Proof.
  intro H. unfold updateItem.
  transitivity (with_items prev (items prev)); [|apply with_items_same]. f_equal.
  transitivity (map (fun it => it) (items prev)); [|apply map_id].
  apply map_ext_in. intros it Hin.
  destruct H as [H| ->].
  - specialize (H it Hin). apply jsstring_eqb_neq in H. now rewrite H.
  - destruct (jsstring_eqb (id it) id0); [|reflexivity]. now destruct it.
Qed.

Lemma updateItem_nothing_to_do_witness :
  let patch := {| patch_id := None; patch_description := Some (js "z");
                  patch_quantity := None; patch_unitPrice := None |} in
  ((forall it, In it (items example0) -> id it <> js "zz")
   \/ patch = {| patch_id := None; patch_description := None;
                 patch_quantity := None; patch_unitPrice := None |})
  /\ updateItem (js "zz") patch example0 = example0.
Proof.
  cbv zeta.
  assert (H : forall it, In it (items example0) -> id it <> js "zz").
  { intros it [<-|[<-|[]]]; discriminate. }
  split; [left; exact H|].
  exact (updateItem_nothing_to_do (js "zz") _ example0 (or_introl H)).
Defined.

(** A patch that supplies no [id] leaves the ids of the items, in their
    order, as they were: the rows keep their keys. *)
Theorem updateItem_keeps_ids (id0 : jsstring) (patch : ItemPatch) (prev : Invoice) :
  patch_id patch = None ->
  map id (items (updateItem id0 patch prev)) = map id (items prev).
Proof.
  intro H. unfold updateItem. cbn [items with_items]. rewrite map_map.
  apply map_ext. intro it. destruct (jsstring_eqb (id it) id0); [|reflexivity].
  unfold spread_item. cbn [id]. now rewrite H.
Qed.

Lemma updateItem_keeps_ids_witness :
  let patch := {| patch_id := None; patch_description := None;
                  patch_quantity := Some 3%float; patch_unitPrice := None |} in
  patch_id patch = None
  /\ map id (items (updateItem (js "id0") patch example0)) = map id (items example0).
Proof.
  cbv zeta. split; [reflexivity|].
  exact (updateItem_keeps_ids (js "id0")
           {| patch_id := None; patch_description := None;
              patch_quantity := Some 3%float; patch_unitPrice := None |} example0 eq_refl).
Defined.

(** Two patches of the same item are one patch, the second taking
    precedence field by field, when the first supplies no [id]. *)
Definition merge_patches (p q : ItemPatch) : ItemPatch :=
  {| patch_id := match patch_id q with Some x => Some x | None => patch_id p end;
     patch_description :=
       match patch_description q with Some x => Some x | None => patch_description p end;
     patch_quantity :=
       match patch_quantity q with Some x => Some x | None => patch_quantity p end;
     patch_unitPrice :=
       match patch_unitPrice q with Some x => Some x | None => patch_unitPrice p end |}.

Theorem updateItem_twice (id0 : jsstring) (p q : ItemPatch) (prev : Invoice) :
  patch_id p = None ->
  updateItem id0 q (updateItem id0 p prev) = updateItem id0 (merge_patches p q) prev.
Proof.
  intro Hp. unfold updateItem, with_items. cbn [items fromName fromAddress billToName
    billToAddress invoiceNumber issueDate dueDate currency taxRatePct notes].
  f_equal. rewrite map_map. apply map_ext. intro it.
  destruct (jsstring_eqb (id it) id0) eqn:Hid.
  - assert (Hid' : jsstring_eqb (id (spread_item it p)) id0 = true)
      by (unfold spread_item; cbn [id]; now rewrite Hp).
    rewrite Hid'. unfold spread_item, merge_patches, or_else. cbn.
    destruct (patch_id q), (patch_description q), (patch_quantity q), (patch_unitPrice q);
      reflexivity.
  - now rewrite Hid.
Qed.

Lemma updateItem_twice_witness :
  let p := {| patch_id := None; patch_description := Some (js "a");
              patch_quantity := Some 2%float; patch_unitPrice := None |} in
  let q := {| patch_id := None; patch_description := None;
              patch_quantity := Some 3%float; patch_unitPrice := Some 5%float |} in
  patch_id p = None
  /\ updateItem (js "id0") q (updateItem (js "id0") p example0)
     = updateItem (js "id0") (merge_patches p q) example0.
Proof.
  cbv zeta. split; [reflexivity|].
  exact (updateItem_twice (js "id0")
           {| patch_id := None; patch_description := Some (js "a");
              patch_quantity := Some 2%float; patch_unitPrice := None |}
           {| patch_id := None; patch_description := None;
              patch_quantity := Some 3%float; patch_unitPrice := Some 5%float |}
           example0 eq_refl).
Defined.

Section AddItem.

Variable E : Env.


(** Adding an item and removing it again gives the invoice back, when
    the invoice had an item and none of its items carries the new
    identifier.  (Added to an invoice without items, the new item is the
    last one and stays.) *)
Theorem removeItem_after_addItem (prev : Invoice) (n : nat) :
  items prev <> [] ->
  (forall it, In it (items prev) -> id it <> uid_at E n) ->
  exists next,
    addItem E prev n = (Return next, S n)
    /\ removeItem (uid_at E n) next = prev.
Proof.
  intros Hne Hfresh. eexists. split; [reflexivity|].
  assert (Hlen : (1 <= List.length (items prev))%nat).
  { destruct (items prev); [contradiction|cbn; lia]. }
  unfold removeItem, with_items. cbn [items fromName fromAddress billToName
    billToAddress invoiceNumber issueDate dueDate currency taxRatePct notes].
  rewrite length_app. cbn [List.length].
  replace (List.length (items prev) + 1 <=? 1)%nat with false
    by (symmetry; apply Nat.leb_gt; lia).
  rewrite filter_app, filter_none.
  - cbn [filter id]. rewrite jsstring_eqb_refl. cbn [negb]. rewrite app_nil_r.
    now destruct prev.
  - intros it Hin. apply negb_true_iff, jsstring_eqb_neq. now apply Hfresh.
Qed.

End AddItem.

Lemma removeItem_after_addItem_witness :
  items example0 <> []
  /\ (forall it, In it (items example0) -> id it <> uid_at E0 2)
  /\ exists next,
       addItem E0 example0 2 = (Return next, 3%nat)
       /\ removeItem (uid_at E0 2) next = example0.
Proof.
  assert (H1 : items example0 <> []) by discriminate.
  assert (H2 : forall it, In it (items example0) -> id it <> uid_at E0 2).
  { intros it [<-|[<-|[]]]; discriminate. }
  split; [exact H1|]. split; [exact H2|].
  exact (removeItem_after_addItem E0 example0 2 H1 H2).
Defined.

(** Added to an invoice without items, the new item cannot be removed. *)
Example removeItem_after_addItem_empty :
  let empty := with_items example0 [] in
  exists next, addItem E0 empty 2 = (Return next, 3%nat)
               /\ removeItem (uid_at E0 2) next = next /\ next <> empty.
Proof.
  eexists. split; [reflexivity|]. split; [reflexivity|]. discriminate.
Qed.

(* ================================================================== *)
(** * More of the totals                                               *)
(* ================================================================== *)

(** What the totals read of an item. *)
Definition amounts (it : LineItem) : float * float := (quantity it, unitPrice it).

Lemma fold_left_amounts (a b : list LineItem) (acc : float) :
  map amounts a = map amounts b ->
  fold_left (fun s it => (s + or_zero (quantity it) * or_zero (unitPrice it))%float) a acc
  = fold_left (fun s it => (s + or_zero (quantity it) * or_zero (unitPrice it))%float) b acc.
Proof.
  revert b acc; induction a as [|x a IH]; intros [|y b] acc H; try discriminate;
    [reflexivity|].
  cbn [map] in H. injection H as Hq Hp Hrest. cbn [fold_left].
  rewrite Hq, Hp. now apply IH.
Qed.

(** The totals read the quantities and unit prices of the items, in
    their order, and the tax rate, and nothing else: two invoices that
    agree on these have the same totals. *)
Theorem totals_read_amounts_and_rate (a b : Invoice) :
  map amounts (items a) = map amounts (items b) ->
  taxRatePct a = taxRatePct b ->
  totals a = totals b.
Proof.
  intros Hi Ht. unfold totals. now rewrite (fold_left_amounts _ _ _ Hi), Ht.
Qed.

Lemma totals_read_amounts_and_rate_witness :
  let renamed := with_items example0
                   [ {| id := js "x"; description := []; quantity := 1; unitPrice := 900 |};
                     {| id := js "y"; description := []; quantity := 10; unitPrice := 90 |} ] in
  map amounts (items example0) = map amounts (items renamed)
  /\ taxRatePct example0 = taxRatePct renamed
  /\ totals example0 = totals renamed.
Proof.
  cbv zeta. split; [reflexivity|]. split; [reflexivity|].
  exact (totals_read_amounts_and_rate example0 _ eq_refl eq_refl).
Defined.

(** Editing the description or the id of an item leaves the totals as
    they were. *)
Theorem totals_after_text_patch (id0 : jsstring) (patch : ItemPatch) (prev : Invoice) :
  patch_quantity patch = None -> patch_unitPrice patch = None ->
  totals (updateItem id0 patch prev) = totals prev.
Proof.
  intros Hq Hp. unfold totals, updateItem. cbn [items with_items taxRatePct].
  rewrite (fold_left_amounts _ (items prev)); [reflexivity|].
  rewrite map_map. apply map_ext. intro it.
  destruct (jsstring_eqb (id it) id0); [|reflexivity].
  unfold amounts, spread_item. cbn [quantity unitPrice]. now rewrite Hq, Hp.
Qed.

Lemma totals_after_text_patch_witness :
  let patch := {| patch_id := None; patch_description := Some (js "Design");
                  patch_quantity := None; patch_unitPrice := None |} in
  patch_quantity patch = None /\ patch_unitPrice patch = None
  /\ totals (updateItem (js "id0") patch example0) = totals example0.
Proof.
  cbv zeta. split; [reflexivity|]. split; [reflexivity|].
  exact (totals_after_text_patch (js "id0")
           {| patch_id := None; patch_description := Some (js "Design");
              patch_quantity := None; patch_unitPrice := None |} example0 eq_refl eq_refl).
Defined.

(** A value that is already a whole number of cents, up to 327.67 in
    magnitude, is left unchanged by [round2]. *)
Definition round2_fixes_cents_at (c : Z) : bool :=
  (round2 (float_of_Z c / 100) =? float_of_Z c / 100)%float.

Lemma round2_fixes_cents_checked : all_from round2_fixes_cents_at 16 (-32768)%Z = true.
Proof. vm_compute. reflexivity. Qed.

Theorem round2_fixes_cents (c : Z) :
  (-32768 <= c < 32768)%Z ->
  (round2 (float_of_Z c / 100) =? float_of_Z c / 100)%float = true.
Proof.
  intro H.
  apply (all_from_spec round2_fixes_cents_at 16 (-32768)%Z round2_fixes_cents_checked).
  simpl. lia.
Qed.

Lemma round2_fixes_cents_witness :
  (-32768 <= 1999 < 32768)%Z
  /\ (round2 (float_of_Z 1999 / 100) =? float_of_Z 1999 / 100)%float = true.
Proof.
  assert (H : (-32768 <= 1999 < 32768)%Z) by lia.
  split; [exact H|]. exact (round2_fixes_cents 1999 H).
Defined.

(* ================================================================== *)
(** * More of [parseInvoiceFromUrl]                                    *)
(* ================================================================== *)

Section ParseMore.

Variable E : Env.
Variable example : Invoice.

Lemma truthy_not_nullish (v : value) : truthy v = true -> is_nullish v = false.
Proof. destruct v; try discriminate; reflexivity. Qed.

(** [parseInvoiceFromUrl] never throws, whatever the URL holds, and has
    two outcomes.  Either the status is that of a loaded link: then there
    is a [data] parameter that [base64UrlDecodeUtf8] decodes to a text
    that parses to a truthy value, and the invoice is what
    [normalizeInvoice] makes of that value.  Or the status is empty, the
    invoice is the normalized example and no identifier was generated. *)
Theorem parseInvoiceFromUrl_outcomes (location : option (option jsstring)) (n : nat) :
  exists inv status n',
    parseInvoiceFromUrl E example location n = (Return (inv, status), n')
    /\ ((status = js "Loaded invoice from share link."
         /\ exists data json,
              location = Some (Some data)
              /\ base64UrlDecodeUtf8 data n = (Return json, n)
              /\ truthy (safeJsonParse json) = true
              /\ normalizeInvoice E (safeJsonParse json) n = (Return inv, n'))
        \/ (status = [] /\ n' = n
            /\ normalizeInvoice E (invoice_value example) n = (Return inv, n))).
Proof.
  assert (Hnorm : normalizeInvoice E (invoice_value example) n
                  = (Return (normalized E (invoice_value example) n), n)).
  { destruct (normalizeInvoice_keeps_items E example n) as (inv' & Hr & _).
    rewrite normalizeInvoice_run in Hr |- * by reflexivity. injection Hr as _ Hn.
    now rewrite Hn. }
  assert (Hfall : forall loc,
             parseInvoiceFromUrl E example loc n
             = (Return (normalized E (invoice_value example) n, []), n) ->
             exists inv status n',
               parseInvoiceFromUrl E example loc n = (Return (inv, status), n')
               /\ ((status = js "Loaded invoice from share link."
                    /\ exists data json,
                         loc = Some (Some data)
                         /\ base64UrlDecodeUtf8 data n = (Return json, n)
                         /\ truthy (safeJsonParse json) = true
                         /\ normalizeInvoice E (safeJsonParse json) n = (Return inv, n'))
                   \/ (status = [] /\ n' = n
                       /\ normalizeInvoice E (invoice_value example) n = (Return inv, n)))).
  { intros loc Hl. eexists. eexists. eexists. split; [exact Hl|]. right.
    repeat split. exact Hnorm. }
  destruct location as [[data|]|]; try (apply Hfall, parse_no_data).
  - destruct data as [|c data]; [apply Hfall, parse_no_data|].
    pose proof (base64UrlDecodeUtf8_counter (c :: data) n) as Hc.
    destruct (base64UrlDecodeUtf8 (c :: data) n) as [[json|e] n1] eqn:Hd;
      cbn [snd] in Hc; subst n1.
    + destruct (truthy (safeJsonParse json)) eqn:Ht.
      * pose proof (truthy_not_nullish _ Ht) as Hnn.
        pose proof (normalizeInvoice_run E (safeJsonParse json) n Hnn) as Hrun.
        eexists. eexists. eexists. split.
        -- unfold parseInvoiceFromUrl, try_catch. unfold bind at 1. rewrite Hd, Ht.
           cbn [negb]. unfold bind. rewrite Hrun. reflexivity.
        -- left. split; [reflexivity|]. exists (c :: data), json. repeat split; assumption.
      * apply Hfall. unfold parseInvoiceFromUrl, try_catch. unfold bind at 1.
        rewrite Hd, Ht. cbn [negb]. unfold bind. now rewrite Hnorm.
    + apply Hfall. unfold parseInvoiceFromUrl, try_catch. unfold bind at 1.
      rewrite Hd. unfold bind. now rewrite Hnorm.
Qed.

End ParseMore.

(* ================================================================== *)
(** * More of the share-link codec                                     *)
(* ================================================================== *)

Local Open Scope N_scope.

(** The characters of a token: A-Z, a-z, 0-9, [-] and [_]. *)
Definition is_url_safe (c : N) : bool :=
  in_range 65 90 c || in_range 97 122 c || in_range 48 57 c || (c =? 45) || (c =? 95).

Lemma url_char_safe (g : N) : g < 64 -> is_url_safe (url_char (b64_char g)) = true.
Proof.
  intro H. unfold url_char, b64_char, is_url_safe, in_range.
  destruct (g <? 26) eqn:H1; [|destruct (g <? 52) eqn:H2; [|destruct (g <? 62) eqn:H3;
    [|destruct (g =? 62) eqn:H4]]]; bool_arith; decide_tests; reflexivity.
Qed.

Lemma scalar_values_scalar (s : jsstring) :
  is_jsstring s -> Forall is_scalar (scalar_values s).
Proof.
  unfold is_jsstring.
  induction s as [|u|u l rest IH IH'] using units_ind; intro H.
  - constructor.
  - apply Forall_inv in H. rewrite scalar_values_eq.
    destruct (is_high_surrogate u) eqn:Hh; [|destruct (is_low_surrogate u) eqn:Hl];
      surrogate_arith; repeat constructor; lia.
  - pose proof (Forall_inv H) as Hu. pose proof (Forall_inv_tail H) as Ht.
    pose proof (Forall_inv Ht) as Hl. pose proof (Forall_inv_tail Ht) as Hrest.
    rewrite scalar_values_eq.
    destruct (is_high_surrogate u) eqn:Hh;
      [destruct (is_low_surrogate l) eqn:Hll|destruct (is_low_surrogate u) eqn:Hlu];
      (constructor; [surrogate_arith; lia|auto]).
Qed.

Lemma TextEncoder_bytes (s : jsstring) :
  is_jsstring s -> Forall (fun b => b < 256) (TextEncoder_encode s).
Proof. intro H. apply utf8_bound. now apply scalar_values_scalar. Qed.

Lemma b64_groups_count (bytes : list N) :
  List.length (b64_groups bytes) = ((4 * List.length bytes + 2) / 3)%nat.
Proof.
  induction bytes as [|a|a b|a b c rest IH] using triples_ind;
    cbn [b64_groups List.length]; try reflexivity.
  rewrite IH.
  replace (4 * S (S (S (List.length rest))) + 2)%nat
    with (4 * List.length rest + 2 + 4 * 3)%nat by lia.
  rewrite Nat.div_add by discriminate. lia.
Qed.

Lemma base64UrlEncodeUtf8_run (s : jsstring) (n : nat) :
  is_jsstring s ->
  base64UrlEncodeUtf8 s n
  = (Return (map url_char (map b64_char (b64_groups (TextEncoder_encode s)))), n).
Proof.
  intro Hs. pose proof (TextEncoder_bytes s Hs) as H.
  pose proof (b64_groups_bound _ H) as Hg. pose proof (b64_chars _ Hg) as Hc.
  unfold base64UrlEncodeUtf8. rewrite fold_left_snoc. cbn [app]. unfold btoa.
  rewrite (forallb_bytes _ H). rewrite bind_ret.
  now rewrite b64_encode_groups, url_safe_form by assumption.
Qed.

Lemma token_url_safe (s : jsstring) :
  is_jsstring s ->
  forallb is_url_safe (map url_char (map b64_char (b64_groups (TextEncoder_encode s)))) = true.
Proof.
  intro Hs. pose proof (TextEncoder_bytes s Hs) as H.
  apply forallb_forall. intros c Hc.
  rewrite map_map in Hc. apply in_map_iff in Hc as (g & <- & Hg).
  apply url_char_safe.
  pose proof (b64_groups_bound _ H) as Hb. rewrite Forall_forall in Hb. now apply Hb.
Qed.

(** What a text becomes through [TextEncoder] and [TextDecoder]: every
    surrogate without its partner is replaced by U+FFFD, and a byte order
    mark at the start is dropped. *)
Definition repaired (s : jsstring) : jsstring :=
  flat_map utf16_units (strip_bom (scalar_values s)).

(** [base64UrlEncodeUtf8] never throws on a string.  Its token has only
    the characters A-Z, a-z, 0-9, [-] and [_]: no padding; its length is
    that of unpadded base64, four characters for three bytes of UTF-8,
    rounded up; and [base64UrlDecodeUtf8] reads it back as the text with
    lone surrogates replaced and a leading byte order mark dropped. *)
Theorem base64UrlEncodeUtf8_token (s : jsstring) (n : nat) :
  is_jsstring s ->
  exists token,
    base64UrlEncodeUtf8 s n = (Return token, n)
    /\ forallb is_url_safe token = true
    /\ List.length token = ((4 * List.length (TextEncoder_encode s) + 2) / 3)%nat
    /\ base64UrlDecodeUtf8 token n = (Return (repaired s), n).
Proof.
  intro Hs. pose proof (TextEncoder_bytes s Hs) as H.
  destruct (base64Url_roundtrip s n H) as (token & He & _ & Hd).
  exists token. split; [exact He|].
  rewrite base64UrlEncodeUtf8_run in He by assumption. injection He as He.
  split; [|split].
  - subst token. now apply token_url_safe.
  - subst token. now rewrite !length_map, b64_groups_count.
  - rewrite Hd. unfold repaired, TextDecoder_decode, TextEncoder_encode.
    now rewrite utf8_roundtrip by (now apply scalar_values_scalar).
Qed.

Lemma base64UrlEncodeUtf8_token_witness :
  is_jsstring (js "a+b")
  /\ exists token,
       base64UrlEncodeUtf8 (js "a+b") 0%nat
       = (Return token, 0%nat)
       /\ forallb is_url_safe token = true
       /\ List.length token = ((4 * List.length (TextEncoder_encode (js "a+b")) + 2) / 3)%nat
       /\ base64UrlDecodeUtf8 token 0%nat = (Return (repaired (js "a+b")), 0%nat).
Proof.
  assert (H : is_jsstring (js "a+b")) by (repeat constructor).
  split; [exact H|]. exact (base64UrlEncodeUtf8_token (js "a+b") 0%nat H).
Defined.

Lemma well_formed_jsstring (s : jsstring) : well_formed s = true -> is_jsstring s.
Proof.
  unfold is_jsstring.
  induction s as [|u|u l rest IH IH'] using units_ind; intro H.
  - constructor.
  - rewrite well_formed_eq in H. destruct (is_high_surrogate u); [discriminate|].
    bool_arith. repeat constructor. assumption.
  - rewrite well_formed_eq in H. destruct (is_high_surrogate u) eqn:Hh.
    + apply andb_true_iff in H as [Hl Hr].
      constructor; [surrogate_arith; lia|]. constructor; [surrogate_arith; lia|auto].
    + apply andb_true_iff in H as [H Hr]. apply andb_true_iff in H as [_ Hu].
      constructor; [now apply N.ltb_lt|auto].
Qed.

(** A text in which every surrogate is paired and that does not start
    with a byte order mark comes back from its token as it was. *)
Theorem base64Url_text_roundtrip (s : jsstring) (n : nat) :
  well_formed s = true -> hd 0 s <> 65279 ->
  exists token,
    base64UrlEncodeUtf8 s n = (Return token, n)
    /\ base64UrlDecodeUtf8 token n = (Return s, n).
Proof.
  intros Hw Hb. destruct (TextDecoder_TextEncoder s Hw Hb) as [Ht H].
  destruct (base64Url_roundtrip s n H) as (token & He & _ & Hd).
  exists token. split; [exact He|]. now rewrite Hd, Ht.
Qed.

Lemma base64Url_text_roundtrip_witness :
  well_formed (js "a b") = true /\ hd 0 (js "a b") <> 65279
  /\ exists token,
       base64UrlEncodeUtf8 (js "a b") 0%nat = (Return token, 0%nat)
       /\ base64UrlDecodeUtf8 token 0%nat = (Return (js "a b"), 0%nat).
Proof.
  assert (Hw : well_formed (js "a b") = true) by reflexivity.
  assert (Hb : hd 0 (js "a b") <> 65279) by discriminate.
  split; [exact Hw|]. split; [exact Hb|].
  exact (base64Url_text_roundtrip (js "a b") 0%nat Hw Hb).
Defined.



(** A surrogate without its partner comes back as U+FFFD. *)
Example base64Url_lone_surrogate :
  exists token,
    base64UrlEncodeUtf8 [97; 55357] 0%nat = (Return token, 0%nat)
    /\ base64UrlDecodeUtf8 token 0%nat = (Return [97; 65533], 0%nat).
Proof. eexists. split; vm_compute; reflexivity. Qed.

(** ** What [base64UrlDecodeUtf8] rejects *)

(** The characters [base64UrlDecodeUtf8] lets through: those of a
    token, those of plain base64, the padding and ASCII whitespace. *)
Definition is_token_char (c : N) : bool :=
  is_url_safe c || (c =? 43) || (c =? 47) || (c =? 61) || is_ascii_whitespace c.

Lemma padding_once {A} (b : N) (r : jsstring) (x y : jsstring -> A) (z : A) :
  b <> 61 ->
  match 61 :: b :: r with
  | 61 :: 61 :: r' => x r'
  | 61 :: r' => y r'
  | _ => z
  end = y (b :: r).
Proof.
  intro H. destruct b as [|p]; [reflexivity|].
  do 6 (try (destruct p as [p|p|]; try reflexivity)).
  exfalso. now apply H.
Qed.

(** [strip_padding] removes nothing but [=] at the end. *)
Lemma strip_padding_suffix (data : jsstring) :
  exists suffix, data = strip_padding data ++ suffix /\ Forall (eq 61) suffix.
Proof.
  unfold strip_padding.
  destruct (_ =? 0); [|exists []; now rewrite app_nil_r].
  destruct (rev data) as [|a r] eqn:Hr; [exists []; now rewrite app_nil_r|].
  apply (f_equal (@rev N)) in Hr. rewrite rev_involutive in Hr.
  destruct (N.eq_dec a 61) as [->|Ha];
    [|rewrite not_padding_head by assumption; exists []; now rewrite app_nil_r].
  destruct r as [|b r].
  - exists [61]. cbn [rev app] in *. split; [exact Hr|repeat constructor].
  - destruct (N.eq_dec b 61) as [->|Hb].
    + exists [61; 61]. cbn [rev] in Hr. rewrite <- !app_assoc in Hr. cbn [app] in Hr.
      split; [exact Hr|repeat constructor].
    + rewrite padding_once by assumption. exists [61]. cbn [rev] in Hr.
      split; [exact Hr|repeat constructor].
Qed.

Lemma indices_none (c : N) (data : jsstring) :
  In c data -> b64_index c = None -> indices data = None.
Proof.
  intros Hin Hc. induction data as [|a l IH]; [contradiction|].
  cbn [indices]. destruct Hin as [->|Hin].
  - now rewrite Hc.
  - rewrite (IH Hin). now destruct (b64_index a).
Qed.

Lemma token_char_index (c : N) : is_token_char c = false -> b64_index c = None.
Proof.
  unfold is_token_char, is_url_safe, b64_index, in_range. intro H.
  bool_arith; try (exfalso; lia); decide_tests; reflexivity.
Qed.

(** A character that is not of a token, of plain base64, padding or
    whitespace makes [base64UrlDecodeUtf8] throw, wherever it stands. *)
Theorem base64UrlDecodeUtf8_rejects (data : jsstring) (c : N) (n : nat) :
  In c data -> is_token_char c = false ->
  base64UrlDecodeUtf8 data n = (Throw InvalidCharacterError, n).
Proof.
  intros Hin Hc. pose proof (token_char_index c Hc) as Hi.
  unfold is_token_char, is_url_safe in Hc.
  apply orb_false_iff in Hc as [Hc Hw]. apply orb_false_iff in Hc as [Hc H61].
  apply orb_false_iff in Hc as [Hc _]. apply orb_false_iff in Hc as [Hc _].
  apply orb_false_iff in Hc as [Hc H95]. apply orb_false_iff in Hc as [_ H45].
  unfold base64UrlDecodeUtf8, bind, atob.
  set (padded := _ ++ _).
  assert (H1 : In c padded).
  { apply in_or_app. left. change (js "+") with [43]. change (js "/") with [47].
    rewrite !replaceAll_map, map_map. apply in_map_iff. exists c. split; [|exact Hin].
    rewrite H45, H95. reflexivity. }
  assert (H2 : In c (filter (fun c => negb (is_ascii_whitespace c)) padded)).
  { apply filter_In. split; [exact H1|]. now rewrite Hw. }
  assert (H3 : In c (strip_padding (filter (fun c => negb (is_ascii_whitespace c)) padded))).
  { destruct (strip_padding_suffix (filter (fun c => negb (is_ascii_whitespace c)) padded))
      as (suffix & Heq & Hs).
    rewrite Heq in H2. apply in_app_or in H2 as [H2|H2]; [exact H2|].
    rewrite Forall_forall in Hs. specialize (Hs c H2). apply N.eqb_neq in H61.
    now contradiction H61. }
  rewrite (indices_none _ _ H3 Hi). now destruct (_ =? 1).
Qed.

Lemma base64UrlDecodeUtf8_rejects_witness :
  In 46 (js "e30.") /\ is_token_char 46 = false
  /\ base64UrlDecodeUtf8 (js "e30.") 0%nat = (Throw InvalidCharacterError, 0%nat).
Proof.
  assert (Hin : In 46 (js "e30.")) by (cbn; tauto).
  assert (Hc : is_token_char 46 = false) by reflexivity.
  split; [exact Hin|]. split; [exact Hc|].
  exact (base64UrlDecodeUtf8_rejects (js "e30.") 46 0%nat Hin Hc).
Defined.

(** The plain base64 character of a character of a token. *)
Definition plain_char (c : N) : N := if c =? 45 then 43 else if c =? 95 then 47 else c.

Lemma plain_form (data : jsstring) :
  replaceAll 95 (js "/") (replaceAll 45 (js "+") data) = map plain_char data.
Proof.
  change (js "+") with [43]. change (js "/") with [47].
  rewrite !replaceAll_map, map_map. apply map_ext. intro c. unfold plain_char.
  destruct (c =? 45); reflexivity.
Qed.

Lemma plain_char_b64 (c : N) : is_url_safe c = true -> is_b64_char (plain_char c) = true.
Proof.
  unfold is_url_safe, plain_char, is_b64_char, b64_index, in_range. intro H.
  destruct (c =? 45) eqn:H1; [reflexivity|]. destruct (c =? 95) eqn:H2; [reflexivity|].
  bool_arith; try (exfalso; lia); decide_tests; reflexivity.
Qed.

Lemma indices_b64 (body : jsstring) :
  Forall (fun c => is_b64_char c = true) body -> exists groups, indices body = Some groups.
Proof.
  induction 1 as [|c l Hc _ [groups IH]]; [now exists []|].
  unfold is_b64_char in Hc. destruct (b64_index c) as [i|] eqn:Hi; [|discriminate].
  exists (i :: groups). cbn [indices]. now rewrite Hi, IH.
Qed.

Lemma filter_padded (body : jsstring) (g : nat) :
  Forall (fun c => is_b64_char c = true) body ->
  filter (fun c => negb (is_ascii_whitespace c)) (body ++ padding g) = body ++ padding g.
Proof.
  intro Hc. apply filter_all. apply Forall_app. split.
  - eapply Forall_impl; [|exact Hc]. intros c Hb. cbv beta. unfold is_b64_char in Hb.
    destruct (b64_index c) eqn:Hi; [|discriminate]. apply b64_index_range in Hi.
    destruct Hi as (_ & _ & _ & Hw & _). now rewrite Hw.
  - unfold padding.
    assert (Hm : (N.of_nat g + 3) mod 4 < 4) by lia.
    destruct ((N.of_nat g + 3) mod 4) as [|[[|[]|]|[|[]|]|]]; try lia;
      repeat constructor.
Qed.

(** A token made of the characters A-Z, a-z, 0-9, [-] and [_] is
    rejected exactly when its length is 1 modulo 4; every other such
    token decodes to a text, whatever bytes it stands for. *)
Theorem base64UrlDecodeUtf8_accepts (data : jsstring) (n : nat) :
  forallb is_url_safe data = true ->
  (N.of_nat (List.length data) mod 4 = 1
   /\ base64UrlDecodeUtf8 data n = (Throw InvalidCharacterError, n))
  \/ (N.of_nat (List.length data) mod 4 <> 1
      /\ exists text, base64UrlDecodeUtf8 data n = (Return text, n)).
Proof.
  intro H.
  assert (Hc : Forall (fun c => is_b64_char c = true) (map plain_char data)).
  { apply Forall_map. apply Forall_forall. intros c Hin. apply plain_char_b64.
    rewrite forallb_forall in H. now apply H. }
  unfold base64UrlDecodeUtf8, bind, atob. rewrite plain_form.
  rewrite <- (length_map plain_char data). fold (padding (List.length (map plain_char data))).
  rewrite filter_padded by assumption.
  destruct (N.eq_dec (N.of_nat (List.length (map plain_char data)) mod 4) 1) as [Hl|Hl].
  - left. split; [exact Hl|].
    assert (Hp : padding (List.length (map plain_char data)) = [61; 61; 61]).
    { unfold padding. replace ((N.of_nat (List.length (map plain_char data)) + 3) mod 4) with 0
        by lia. reflexivity. }
    rewrite Hp.
    assert (Hs : strip_padding (map plain_char data ++ [61; 61; 61])
                 = map plain_char data ++ [61]).
    { unfold strip_padding. rewrite length_app, Nat2N.inj_add. cbn [List.length].
      replace ((N.of_nat (List.length (map plain_char data)) + N.of_nat 3) mod 4 =? 0) with true
        by (symmetry; apply N.eqb_eq; change (N.of_nat 3) with 3; lia).
      rewrite rev_app_distr. cbn [rev app]. now rewrite rev_involutive. }
    rewrite Hs. rewrite (indices_none 61 (map plain_char data ++ [61]));
      [now destruct (_ =? 1)| apply in_or_app; right; now left | reflexivity].
  - right. split; [exact Hl|].
    rewrite strip_padding_encoded by assumption.
    replace (N.of_nat (List.length (map plain_char data)) mod 4 =? 1) with false
      by (symmetry; now apply N.eqb_neq).
    destruct (indices_b64 _ Hc) as [groups Hg]. rewrite Hg. eexists. reflexivity.
Qed.

Lemma base64UrlDecodeUtf8_accepts_witness :
  forallb is_url_safe (js "e30") = true
  /\ ((N.of_nat (List.length (js "e30")) mod 4 = 1
       /\ base64UrlDecodeUtf8 (js "e30") 0%nat = (Throw InvalidCharacterError, 0%nat))
      \/ (N.of_nat (List.length (js "e30")) mod 4 <> 1
          /\ exists text, base64UrlDecodeUtf8 (js "e30") 0%nat = (Return text, 0%nat))).
Proof.
  assert (H : forallb is_url_safe (js "e30") = true) by reflexivity.
  split; [exact H|]. exact (base64UrlDecodeUtf8_accepts (js "e30") 0%nat H).
Defined.

Local Close Scope N_scope.

(* ================================================================== *)
(** * The dates                                                        *)
(* ================================================================== *)

Local Open Scope Z_scope.

(** The character of a decimal digit. *)
Definition digit (z : Z) : N := (48 + Z.to_N z)%N.

(** [YYYY-MM-DD], zero padded. *)
Definition iso_date (year month day : Z) : jsstring :=
  [digit (year / 1000); digit (year / 100 mod 10); digit (year / 10 mod 10);
   digit (year mod 10); 45%N;
   digit (month / 10); digit (month mod 10); 45%N;
   digit (day / 10); digit (day mod 10)].

Definition four_digits_at (y : Z) : bool :=
  (9999 <? y)
  || jsstring_eqb (String_of_Z y)
       [digit (y / 1000); digit (y / 100 mod 10); digit (y / 10 mod 10); digit (y mod 10)].

Lemma four_digits_checked : all_from four_digits_at 14 1000 = true.
Proof. vm_compute. reflexivity. Qed.

Definition two_digits_at (z : Z) : bool :=
  (99 <? z) || jsstring_eqb (padStart2 (String_of_Z z)) [digit (z / 10); digit (z mod 10)].

Lemma two_digits_checked : all_from two_digits_at 7 0 = true.
Proof. vm_compute. reflexivity. Qed.

Lemma four_digits (y : Z) :
  1000 <= y <= 9999 ->
  String_of_Z y
  = [digit (y / 1000); digit (y / 100 mod 10); digit (y / 10 mod 10); digit (y mod 10)].
Proof.
  intro H.
  assert (Hc : four_digits_at y = true).
  { apply (all_from_spec four_digits_at 14 1000 four_digits_checked). simpl. lia. }
  unfold four_digits_at in Hc. apply orb_true_iff in Hc as [Hc|Hc].
  - apply Z.ltb_lt in Hc. lia.
  - now apply jsstring_eqb_eq.
Qed.

Lemma two_digits (z : Z) :
  0 <= z <= 99 -> padStart2 (String_of_Z z) = [digit (z / 10); digit (z mod 10)].
Proof.
  intro H.
  assert (Hc : two_digits_at z = true).
  { apply (all_from_spec two_digits_at 7 0 two_digits_checked). simpl. lia. }
  unfold two_digits_at in Hc. apply orb_true_iff in Hc as [Hc|Hc].
  - apply Z.ltb_lt in Hc. lia.
  - now apply jsstring_eqb_eq.
Qed.

(** For a calendar date with a year of four digits, [plusDaysISO], and
    [todayISO] for no days added, give the ten characters [YYYY-MM-DD]:
    the month is counted from 1, month and day are padded to two
    digits. *)
Theorem dates_are_iso (E : Env) (days year month day : Z) (n : nat) :
  date_in E days = (year, month, day) ->
  1000 <= year <= 9999 -> 0 <= month <= 11 -> 1 <= day <= 31 ->
  plusDaysISO E days n = (Return (iso_date year (month + 1) day), n)
  /\ (days = 0 -> todayISO E n = (Return (iso_date year (month + 1) day), n)).
Proof.
  intros Hd Hy Hm Hday.
  assert (Hf : format_date (date_in E days) = iso_date year (month + 1) day).
  { rewrite Hd. unfold format_date, iso_date.
    rewrite four_digits, !two_digits by lia. reflexivity. }
  split.
  - unfold plusDaysISO, ret. now rewrite Hf.
  - intros ->. unfold todayISO, ret. now rewrite Hf.
Qed.

Lemma dates_are_iso_witness :
  date_in E0 14 = (2026, 0, 29)
  /\ plusDaysISO E0 14 0%nat = (Return (js "2026-01-29"), 0%nat).
Proof.
  split; [reflexivity|].
  exact (proj1 (dates_are_iso E0 14 2026 0 29 0%nat eq_refl
                  ltac:(lia) ltac:(lia) ltac:(lia))).
Defined.

(** The year is not padded: before the year 1000 the text is shorter. *)
Example short_year : format_date (999, 11, 31) = js "999-12-31".
Proof. reflexivity. Qed.

Local Close Scope Z_scope.

(* ================================================================== *)
(** * The handlers of the component, verified                          *)
(* ================================================================== *)

Section HandlersMore.

Variable E : Env.

(** Saving and loading: after [saveLocal] on a typed invoice, and
    whatever is edited or shown in between, [loadLocal] shows the saved
    invoice again, field for field and with the same item ids, and
    generates no identifier. *)
Theorem loadLocal_after_saveLocal (c later : Component) (n : nat) :
  valid_invoice (shown c) ->
  stored later = stored (saveLocal c) ->
  loadLocal E later n
  = (Return {| shown := shown c;
               status := js "Loaded saved invoice from this browser.";
               stored := stored later |}, n).
Proof.
  intros Hv Hs. destruct (invoice_value_safe (shown c) Hv) as [Hsafe Hnn].
  destruct (JSON_roundtrip _ Hsafe) as (json & Hjson & Hparse & _ & _ & Hne).
  unfold saveLocal in Hs. rewrite Hjson in Hs. cbn [stored] in Hs.
  unfold loadLocal. rewrite Hs.
  destruct json as [|u json]; [contradiction|]. cbn [truthy negb].
  unfold safeJsonParse. rewrite Hparse. cbn [invoice_value truthy negb].
  unfold bind. change (Obj _) with (invoice_value (shown c)).
  now rewrite (normalizeInvoice_fixed E (shown c) n Hnn).
Qed.

(** [loadLocal] never throws and never writes to the storage.  It has
    three outcomes: nothing is stored, or the empty text, and the
    invoice shown is kept; what is stored does not parse to a truthy
    value, and the invoice shown is kept; or the invoice shown becomes
    what [normalizeInvoice] makes of the parsed value. *)
Theorem loadLocal_outcomes (c : Component) (n : nat) :
  exists c' n',
    loadLocal E c n = (Return c', n')
    /\ stored c' = stored c
    /\ ((status c' = js "No saved invoice found in this browser."
         /\ (stored c = None \/ stored c = Some [])
         /\ shown c' = shown c /\ n' = n)
        \/ (status c' = js "Saved data was corrupted."
            /\ (exists raw, stored c = Some raw /\ raw <> []
                            /\ truthy (safeJsonParse raw) = false)
            /\ shown c' = shown c /\ n' = n)
        \/ (status c' = js "Loaded saved invoice from this browser."
            /\ exists raw, stored c = Some raw
                           /\ truthy (safeJsonParse raw) = true
                           /\ normalizeInvoice E (safeJsonParse raw) n = (Return (shown c'), n'))).
Proof.
  unfold loadLocal. destruct (stored c) as [[|u raw]|] eqn:Hs; cbn [truthy negb].
  - eexists. eexists. split; [reflexivity|]. split; [reflexivity|]. left.
    cbn [status shown]. repeat split. now right.
  - destruct (truthy (safeJsonParse (u :: raw))) eqn:Ht; cbn [negb].
    + pose proof (normalizeInvoice_run E _ n (truthy_not_nullish _ Ht)) as Hrun.
      unfold bind. rewrite Hrun. eexists. eexists. split; [reflexivity|].
      split; [reflexivity|]. right. right. cbn [status shown]. split; [reflexivity|].
      exists (u :: raw). repeat split; assumption || reflexivity.
    + eexists. eexists. split; [reflexivity|]. split; [reflexivity|]. right. left.
      cbn [status shown]. split; [reflexivity|]. split; [|split; reflexivity].
      exists (u :: raw). split; [reflexivity|]. split; [discriminate|exact Ht].
  - eexists. eexists. split; [reflexivity|]. split; [reflexivity|]. left.
    cbn [status shown]. repeat split. now left.
Qed.

End HandlersMore.

(** [loadLocal] right after [saveLocal] never throws and never reports
    that nothing was saved, whatever the invoice shown. *)
Theorem saveLocal_is_found (E : Env) (c : Component) (n : nat) :
  exists c' n',
    loadLocal E (saveLocal c) n = (Return c', n')
    /\ status c' <> js "No saved invoice found in this browser."
    /\ stored c' = stored (saveLocal c)
    /\ stored c' = JSON_stringify (invoice_value (shown c)).
Proof.
  unfold saveLocal, loadLocal. cbn [stored shown].
  unfold JSON_stringify, invoice_value. cbn [stringify truthy negb].
  match goal with |- context [safeJsonParse ?t] => generalize (safeJsonParse t) end.
  intro parsed. destruct (truthy parsed) eqn:Ht; cbn [negb].
  - pose proof (normalizeInvoice_run E _ n (truthy_not_nullish _ Ht)) as Hrun.
    unfold bind. rewrite Hrun. eexists. eexists. split; [reflexivity|].
    cbn [status stored]. repeat split. discriminate.
  - eexists. eexists. split; [reflexivity|]. cbn [status stored]. repeat split. discriminate.
Qed.

Lemma loadLocal_after_saveLocal_witness :
  let c := {| shown := example0; status := []; stored := None |} in
  let later := {| shown := twin_items; status := js "edited"; stored := stored (saveLocal c) |} in
  valid_invoice (shown c)
  /\ stored later = stored (saveLocal c)
  /\ loadLocal E0 later 7
     = (Return {| shown := example0;
                  status := js "Loaded saved invoice from this browser.";
                  stored := stored later |}, 7%nat).
Proof.
  cbv zeta. split; [exact example0_valid|]. split; [reflexivity|].
  exact (loadLocal_after_saveLocal E0
           {| shown := example0; status := []; stored := None |}
           {| shown := twin_items; status := js "edited";
              stored := stored (saveLocal {| shown := example0; status := []; stored := None |}) |}
           7 example0_valid eq_refl).
Defined.

(** [loadExample] shows the example invoice itself, with the ids it was
    built with, in every environment: the example is a fixed point of
    [normalizeInvoice], no identifier is generated, and its totals are
    1800, 180 and 1980. *)
Theorem loadExample_shows_example (E : Env) (c : Component) (n m : nat) :
  exists example,
    exampleInvoice E n = (Return example, S (S n))
    /\ loadExample E example c m
       = (Return {| shown := example; status := js "Loaded example invoice.";
                    stored := stored c |}, m)
    /\ List.map id (items example) = [uid_at E n; uid_at E (S n)]
    /\ totals example = {| subtotal := 1800; tax := 180; total := 1980 |}%float.
Proof.
  eexists. split; [reflexivity|]. split; [|split; [reflexivity|vm_compute; reflexivity]].
  unfold loadExample, bind. rewrite normalizeInvoice_fixed; [reflexivity|].
  unfold string_fields. repeat constructor.
Qed.

(* ================================================================== *)
(** * The share link of any invoice                                    *)
(* ================================================================== *)

Local Open Scope N_scope.

(** A value all of whose strings and keys are strings of 16-bit code
    units, as every JavaScript value is. *)
Inductive strings_ok : value -> Prop :=
| ok_undefined : strings_ok Undefined
| ok_null : strings_ok Null
| ok_bool (b : bool) : strings_ok (Bool b)
| ok_num (x : float) : strings_ok (Num x)
| ok_str (s : jsstring) : is_jsstring s -> strings_ok (Str s)
| ok_arr (elems : list value) : Forall strings_ok elems -> strings_ok (Arr elems)
| ok_obj (props : list (jsstring * value)) :
    Forall (fun kv => is_jsstring (fst kv) /\ strings_ok (snd kv)) props ->
    strings_ok (Obj props).

Definition plain (s : jsstring) : Prop := Forall (fun c => c < 55296) s.

Lemma plain_app (a b : jsstring) : plain a -> plain b -> plain (a ++ b).
Proof. intros Ha Hb. apply Forall_app. now split. Qed.

Lemma plain_firstn (k : nat) (s : jsstring) : plain s -> plain (firstn k s).
Proof.
  intro H. unfold plain in *. rewrite <- (firstn_skipn k s) in H.
  now apply Forall_app in H.
Qed.

Lemma plain_skipn (k : nat) (s : jsstring) : plain s -> plain (skipn k s).
Proof.
  intro H. unfold plain in *. rewrite <- (firstn_skipn k s) in H.
  now apply Forall_app in H.
Qed.

Lemma plain_digits_fuel (fuel : nat) (n : N) (acc : jsstring) :
  plain acc -> plain (digits_fuel fuel n acc).
Proof.
  revert n acc; induction fuel as [|f IH]; intros n acc H; [exact H|].
  cbn [digits_fuel].
  assert (H' : plain (48 + n mod 10 :: acc)) by (constructor; [lia|exact H]).
  destruct (n <? 10); [exact H'|now apply IH].
Qed.

Lemma plain_digits (n : N) : plain (digits n).
Proof. apply plain_digits_fuel. constructor. Qed.

Lemma plain_zeros (n : Z) : plain (zeros n).
Proof.
  unfold zeros. induction (Z.to_nat n) as [|k IH]; [constructor|].
  constructor; [lia|exact IH].
Qed.

Lemma plain_literal (s : string) :
  forallb (fun c => c <? 55296) (js s) = true -> plain (js s).
Proof.
  intro H. apply Forall_forall. intros c Hc. rewrite forallb_forall in H.
  now apply N.ltb_lt, H.
Qed.

Ltac plain_parts :=
  repeat first [ apply plain_app | apply plain_digits | apply plain_zeros
               | apply plain_firstn | apply plain_skipn
               | apply plain_literal; reflexivity
               | apply Forall_nil ].

Lemma plain_format_decimal (s k n : Z) : plain (format_decimal s k n).
Proof.
  unfold format_decimal.
  destruct (_ && _); [plain_parts|]. destruct (_ && _); [plain_parts|].
  destruct (_ && _); [plain_parts|].
  destruct (k =? 1)%Z; destruct (n - 1 <? 0)%Z; plain_parts.
Qed.

(** The text of a number has only ASCII characters. *)
Lemma plain_Number_toString (x : float) : plain (Number_toString x).
Proof.
  unfold Number_toString. destruct (Prim2SF x) as [s|s| |sign m e].
  - plain_parts.
  - destruct s; plain_parts.
  - plain_parts.
  - destruct (shortest_from _ _ _ _ _ _) as [[s k] n].
    apply plain_app; [destruct sign; plain_parts|apply plain_format_decimal].
Qed.

Lemma plain_no_bom (s : jsstring) : plain s -> hd 0 s <> 65279.
Proof.
  intros [|c l Hc _]; cbn [hd]; lia.
Qed.

Lemma well_formed_join (parts : list jsstring) :
  Forall (fun p => well_formed p = true) parts -> well_formed (join_comma parts) = true.
Proof.
  induction 1 as [|p l Hp Hl IH]; [reflexivity|].
  destruct l as [|q l]; [exact Hp|].
  change (join_comma (p :: q :: l)) with (p ++ 44 :: join_comma (q :: l)).
  apply well_formed_app; [exact Hp|]. apply well_formed_cons; [lia|exact IH].
Qed.

(** The text of a value is well formed and does not start with a byte
    order mark. *)
Lemma stringify_well_formed (v : value) :
  strings_ok v ->
  forall t, stringify v = Some t -> well_formed t = true /\ hd 0 t <> 65279.
Proof.
  induction v as [| |b|x|s|elems IH|props IH] using value_nested_ind;
    intros H t Ht; inversion H; subst; cbn [stringify] in Ht; try discriminate;
    injection Ht as <-.
  - split; [reflexivity|discriminate].
  - destruct b; (split; [reflexivity|discriminate]).
  - assert (Hp : plain (if is_finite x then Number_toString x else js "null")).
    { destruct (is_finite x); [apply plain_Number_toString|plain_parts]. }
    split; [now apply well_formed_plain|now apply plain_no_bom].
  - split; [now apply well_formed_quote|discriminate].
  - split; [|discriminate]. apply well_formed_cons; [lia|].
    apply well_formed_app; [|reflexivity]. apply well_formed_join.
    apply Forall_map. rewrite Forall_forall in *. intros e He.
    destruct (stringify e) as [t|] eqn:Hs; [|reflexivity].
    now apply (IH e He (H1 e He) t).
  - split; [|discriminate]. apply well_formed_cons; [lia|].
    apply well_formed_app; [|reflexivity]. apply well_formed_join.
    apply Forall_flat_map. rewrite Forall_forall in *. intros [k e] He.
    cbn [fst snd]. destruct (stringify e) as [t|] eqn:Hs; [|constructor].
    constructor; [|constructor].
    destruct (H1 _ He) as [Hk Hv]. cbn [fst snd] in Hk, Hv.
    apply well_formed_app; [now apply well_formed_quote|].
    apply well_formed_cons; [lia|]. now apply (IH _ He Hv t).
Qed.

(** The share link of any invoice: whatever its numbers are, also
    [NaN] or an infinity, [copyShareLink] gets a text from
    [JSON.stringify] and a token from [base64UrlEncodeUtf8] without an
    exception; the token has only the characters A-Z, a-z, 0-9, [-] and
    [_], and [base64UrlDecodeUtf8] reads it back as that text. *)
Theorem shareToken_any_invoice (invoice : Invoice) (n : nat) :
  strings_ok (invoice_value invoice) ->
  exists json token,
    JSON_stringify (invoice_value invoice) = Some json
    /\ shareToken invoice n = (Return token, n)
    /\ forallb is_url_safe token = true
    /\ base64UrlDecodeUtf8 token n = (Return json, n).
Proof.
  intro H.
  destruct (JSON_stringify (invoice_value invoice)) as [json|] eqn:Hj; [|discriminate Hj].
  destruct (stringify_well_formed _ H json Hj) as [Hw Hb].
  destruct (TextDecoder_TextEncoder json Hw Hb) as [Hdec Hbytes].
  destruct (base64Url_roundtrip json n Hbytes) as (token & Henc & _ & Hback).
  exists json, token. split; [reflexivity|].
  unfold shareToken. rewrite Hj. split; [exact Henc|].
  split; [|now rewrite Hback, Hdec].
  rewrite base64UrlEncodeUtf8_run in Henc by (now apply well_formed_jsstring).
  injection Henc as <-. now apply token_url_safe, well_formed_jsstring.
Qed.

(** An invoice whose tax rate is not a number. *)
Definition unrated : Invoice :=
  {| fromName := fromName example0; fromAddress := fromAddress example0;
     billToName := billToName example0; billToAddress := billToAddress example0;
     invoiceNumber := invoiceNumber example0; issueDate := issueDate example0;
     dueDate := dueDate example0; currency := currency example0;
     taxRatePct := nan; notes := notes example0; items := items example0 |}.

Lemma unrated_strings_ok : strings_ok (invoice_value unrated).
Proof.
  unfold unrated, invoice_value. apply ok_obj.
  repeat (apply Forall_cons; [split; [apply literal_key; reflexivity|]|]);
    try apply Forall_nil; cbn [fst snd];
    try (apply ok_str, is_jsstring_b; reflexivity); try apply ok_num.
  apply ok_arr. cbn [items example0 map].
  repeat (apply Forall_cons; [|]); try apply Forall_nil;
    (apply ok_obj;
     repeat (apply Forall_cons; [split; [apply literal_key; reflexivity|]|]);
     try apply Forall_nil; cbn [fst snd];
     try (apply ok_str, is_jsstring_b; reflexivity); apply ok_num).
Qed.

Lemma shareToken_any_invoice_witness :
  strings_ok (invoice_value unrated)
  /\ exists json token,
       JSON_stringify (invoice_value unrated) = Some json
       /\ shareToken unrated 0%nat = (Return token, 0%nat)
       /\ forallb is_url_safe token = true
       /\ base64UrlDecodeUtf8 token 0%nat = (Return json, 0%nat).
Proof.
  split; [exact unrated_strings_ok|].
  exact (shareToken_any_invoice unrated 0%nat unrated_strings_ok).
Defined.

Local Close Scope N_scope.
